(** * Rolling top-N category totals: a shallow embedding of the live
      dashboard server (Step 4 helpers, [streamTopCategories], [broadcast],
      [safeStream]) and the properties its specification states.

    Modelling conventions.
    - A JavaScript [number] is modelled as an integer [Z].  All amounts of
      the program are integer minor units and page counters; rounding,
      [NaN] and infinities of IEEE doubles are outside the model.
    - A [Map<string, number>] is an association list in insertion order
      with pairwise distinct keys, which is the order [Map.prototype.entries]
      iterates in.
    - A thrown exception is the [Throw] alternative of [Result].
    - Console output is kept as a list of abstract log lines; the 100 ms
      pauses of the mock page source are not modelled. *)

From Stdlib Require Import ZArith List Lia Sorted Permutation.
From stdpp Require Import base list strings gmap.

Local Open Scope Z_scope.

(* ================================================================== *)
(** * Part I. The program                                              *)
(* ================================================================== *)

(** ** Exceptions *)

Inductive JsError :=
  | RangeError                     (* raised by [Iterator.prototype.take] *)
  | TypeError                      (* a reference used at the wrong type *)
  | SourceError (msg : string).    (* raised by the page source *)

Inductive Result (A : Type) :=
  | Ok (a : A)
  | Throw (e : JsError).
Arguments Ok {A} a.
Arguments Throw {A} e.

(** ** [Map<string, number>] *)

Definition Entry : Type := string * Z.
Definition JsMap : Type := list Entry.

Definition keys (m : JsMap) : list string := map fst m.

(** [map.get(k)] *)
Fixpoint Map_get (m : JsMap) (k : string) : option Z :=
  match m with
  | [] => None
  | (k', v) :: m' => if String.eqb k' k then Some v else Map_get m' k
  end.

(** [map.set(k, v)]: an existing key keeps its position, a new key is
    appended. *)
Fixpoint Map_set (m : JsMap) (k : string) (v : Z) : JsMap :=
  match m with
  | [] => [(k, v)]
  | (k', v') :: m' =>
      if String.eqb k' k then (k', v) :: m' else (k', v') :: Map_set m' k v
  end.

(** [x ?? d] *)
Definition nullish (x : option Z) (d : Z) : Z :=
  match x with Some v => v | None => d end.
Infix "??" := nullish (at level 45, left associativity).

(** [map.size] *)
Definition Map_size (m : JsMap) : nat := length m.

(** Well-formedness of the representation: keys are distinct. *)
Definition Map_wf (m : JsMap) : Prop := NoDup (keys m).

(** ** Domain types (shared/types) *)

Inductive Status := paid | pending | cancelled | refunded.

Definition Status_eqb (a b : Status) : bool :=
  match a, b with
  | paid, paid | pending, pending | cancelled, cancelled
  | refunded, refunded => true
  | _, _ => false
  end.

Record LineItem := {
  sku : string;
  qty : Z;
  unitPrice : Z;
  category : string
}.

Record Order := {
  order_id : string;
  customerId : string;
  createdAt : string;
  status : Status;
  items : list LineItem
}.

Definition Page : Type := list Order.

(** The object literal [{ category, total }] built per line item. *)
Record CategorySale := {
  sale_category : string;
  total : Z
}.

(** ** [topNFromMap] *)

(** The comparator [(a, b) => b[1] - a[1]]. *)
Definition byTotalDesc (a b : Entry) : Z := snd b - snd a.

(** [Array.prototype.toSorted(cmp)].  ECMAScript requires the sort to be
    stable, and for a consistent comparator the result of a stable sort is
    unique; it is computed here by insertion from the right, placing an
    element before the first one it does not compare greater than. *)
Fixpoint insertSorted {A} (cmp : A -> A -> Z) (x : A) (l : list A) : list A :=
  match l with
  | [] => [x]
  | y :: l' => if cmp x y <=? 0 then x :: l else y :: insertSorted cmp x l'
  end.

Fixpoint toSorted {A} (cmp : A -> A -> Z) (l : list A) : list A :=
  match l with
  | [] => []
  | x :: l' => insertSorted cmp x (toSorted cmp l')
  end.

(** [iterator.take(limit).toArray()]: [take] raises a [RangeError] for a
    negative limit, otherwise yields at most [limit] elements. *)
Definition Iterator_take {A} (limit : Z) (l : list A) : Result (list A) :=
  if limit <? 0 then Throw RangeError else Ok (firstn (Z.to_nat limit) l).

Definition topNFromMap (map : JsMap) (n : Z) : Result (list Entry) :=
  Iterator_take n (toSorted byTotalDesc map).

(** ** [processPageToSales] *)

Definition processPageToSales (page : Page) : JsMap :=
  fold_left
    (fun acc sale =>
       Map_set acc (sale_category sale)
         ((Map_get acc (sale_category sale) ?? 0) + total sale))
    (flat_map
       (fun o => map (fun it => {| sale_category := category it;
                                   total := qty it * unitPrice it |})
                     (items o))
       (List.filter (fun o => Status_eqb (status o) paid) page))
    [].

(** ** [mergeCategoryTotals] *)

Definition mergeCategoryTotals (a b : JsMap) : JsMap :=
  fold_left
    (fun result '(category, total) =>
       Map_set result category ((Map_get result category ?? 0) + total))
    b
    a.

(** ** [streamTopCategories] *)

(** A finite run of an [AsyncIterable]: it yields values until it either
    finishes or raises. *)
Inductive AsyncIterable (A : Type) :=
  | Done
  | Fails (e : JsError)
  | Yields (x : A) (rest : AsyncIterable A).
Arguments Done {A}.
Arguments Fails {A} e.
Arguments Yields {A} x rest.

Fixpoint yielded {A} (it : AsyncIterable A) : list A :=
  match it with
  | Yields x rest => x :: yielded rest
  | _ => []
  end.

Fixpoint ofList {A} (l : list A) : AsyncIterable A :=
  match l with
  | [] => Done
  | x :: l' => Yields x (ofList l')
  end.

(** What an observer of one run sees, in order: a page being taken from
    the source, and a call of [onUpdate] that has returned. *)
Inductive Event :=
  | EvPage (page : Page)
  | EvUpdate (snapshot : list Entry) (pageIndex : Z).

(** The state a run threads: the world [W] the callback acts on, and the
    events so far. *)
Record Run (W : Type) := {
  world : W;
  trace : list Event
}.
Arguments world {W} r.
Arguments trace {W} r.

(** A callback [(snapshot, pageIndex) => void] acting on a world [W]; it
    may throw. *)
Definition Callback (W : Type) : Type :=
  list Entry -> Z -> W -> W * Result unit.

(** The body of the [for await] loop, with the loop variables
    [runningTotals] and [pageIndex] as arguments. *)
Fixpoint forAwait {W} (pages : AsyncIterable Page) (limit : Z)
    (onUpdate : Callback W) (runningTotals : JsMap) (pageIndex : Z)
    (r : Run W) : Run W * Result JsMap :=
  match pages with
  | Done => (r, Ok runningTotals)
  | Fails e => (r, Throw e)
  | Yields page rest =>
      let r := {| world := world r; trace := trace r ++ [EvPage page] |} in
      let pageTotals := processPageToSales page in
      let runningTotals := mergeCategoryTotals runningTotals pageTotals in
      match topNFromMap runningTotals limit with
      | Throw e => (r, Throw e)
      | Ok snapshot =>
          match onUpdate snapshot pageIndex (world r) with
          | (w, Throw e) => ({| world := w; trace := trace r |}, Throw e)
          | (w, Ok _) =>
              forAwait rest limit onUpdate runningTotals (pageIndex + 1)
                {| world := w;
                   trace := trace r ++ [EvUpdate snapshot pageIndex] |}
          end
      end
  end.

Definition streamTopCategories {W} (pages : AsyncIterable Page) (limit : Z)
    (onUpdate : Callback W) (w : W) : Run W * Result JsMap :=
  forAwait pages limit onUpdate [] 0 {| world := w; trace := [] |}.

(** The value of [runningTotals] after the first [k] pages. *)
Definition runningAfter (pages : list Page) (k : nat) : JsMap :=
  fold_left (fun running page =>
               mergeCategoryTotals running (processPageToSales page))
            (firstn k pages) [].

(** The running total of a category; an absent key counts as [0]. *)
Definition totalOf (m : JsMap) (c : string) : Z := Map_get m c ?? 0.

(** ** The mock page source (shared/data) *)

Definition item (s : string) (q p : Z) (c : string) : LineItem :=
  {| sku := s; qty := q; unitPrice := p; category := c |}.

Definition fetchOrderPages : AsyncIterable Page :=
  Yields
    [ {| order_id := "o1"; customerId := "c1";
         createdAt := "2025-08-01T10:00:00Z"; status := paid;
         items := [ item "A1" 2 1200 "books"; item "F4" 3 500 "food" ] |};
      {| order_id := "o2"; customerId := "c2";
         createdAt := "2025-08-02T09:00:00Z"; status := paid;
         items := [ item "T9" 1 9999 "tools"; item "B2" 1 2500 "books" ] |} ]
  (Yields
    [ {| order_id := "o3"; customerId := "c3";
         createdAt := "2025-08-03T12:00:00Z"; status := pending;
         items := [ item "X" 10 100 "food" ] |};
      {| order_id := "o4"; customerId := "c4";
         createdAt := "2025-08-04T14:00:00Z"; status := paid;
         items := [ item "H1" 1 5000 "tools"; item "F5" 2 800 "food" ] |} ]
  (Yields
    [ {| order_id := "o5"; customerId := "c5";
         createdAt := "2025-08-05T16:00:00Z"; status := paid;
         items := [ item "B3" 3 1800 "books"; item "T2" 1 15000 "tools" ] |} ]
   Done)).

Definition recordCalls : Callback (list (list Entry * Z)) :=
  fun snapshot pageIndex calls => (calls ++ [(snapshot, pageIndex)], Ok tt).

(** ** The broadcaster *)

Inductive ReadyState := CONNECTING | OPEN | CLOSING | CLOSED.

Definition ReadyState_eqb (a b : ReadyState) : bool :=
  match a, b with
  | CONNECTING, CONNECTING | OPEN, OPEN | CLOSING, CLOSING
  | CLOSED, CLOSED => true
  | _, _ => false
  end.

(** One element [{ category, sum }] of an update's [items]. *)
Record Item := {
  item_category : string;
  sum : Z
}.

(** The messages put on the wire.  [JSON.stringify] is injective on them
    and is left out: a frame is the message itself.  The field [at] holds
    the clock reading at the time the update is built. *)
Inductive WireMessage :=
  | Hello (msg : string)
  | TopCategories (at_ : Z) (pageIndex : Z) (items : list Item).

(** A connection as the server sees it.  [sendThrows] says whether
    [ws.send] raises on this connection; [sendCalls] counts the calls of
    [ws.send], [received] lists the frames it has put through. *)
Record WebSocket := {
  readyState : ReadyState;
  sendThrows : bool;
  sendCalls : nat;
  received : list WireMessage
}.

(** [ws.send(json)] *)
Definition ws_send (json : WireMessage) (ws : WebSocket)
    : WebSocket * Result unit :=
  if sendThrows ws then
    ({| readyState := readyState ws; sendThrows := sendThrows ws;
        sendCalls := S (sendCalls ws); received := received ws |},
     Throw TypeError)
  else
    ({| readyState := readyState ws; sendThrows := sendThrows ws;
        sendCalls := S (sendCalls ws);
        received := received ws ++ [json] |},
     Ok tt).

Definition WsId : Type := nat.

Inductive ConsoleLine :=
  | LogStarting
  | LogBroadcasting (page : Z) (nclients : nat)
  | LogCompleted
  | LogRestarting
  | LogFailed (e : JsError).

(** The two closures handed to [setTimeout]. *)
Inductive Task :=
  | RestartCycle      (* [() => { console.log(...); safeStream(); }] *)
  | Retry.            (* [safeStream] *)

(** The module-level state of the server: the set [clients] in insertion
    order, the connection objects it refers to, the clock, the pending
    timers with their due times, and the console. *)
Record Server := {
  clients : list WsId;
  sockets : WsId -> WebSocket;
  clock : Z;
  timers : list (Z * Task);
  console : list ConsoleLine
}.

Definition set_clients (c : list WsId) (st : Server) : Server :=
  {| clients := c; sockets := sockets st; clock := clock st;
     timers := timers st; console := console st |}.

Definition set_socket (i : WsId) (ws : WebSocket) (st : Server) : Server :=
  {| clients := clients st;
     sockets := fun j => if Nat.eqb j i then ws else sockets st j;
     clock := clock st; timers := timers st; console := console st |}.

Definition console_log (l : ConsoleLine) (st : Server) : Server :=
  {| clients := clients st; sockets := sockets st; clock := clock st;
     timers := timers st; console := console st ++ [l] |}.

(** [setTimeout(task, delay)] *)
Definition setTimeout (task : Task) (delay : Z) (st : Server) : Server :=
  {| clients := clients st; sockets := sockets st; clock := clock st;
     timers := timers st ++ [(clock st + delay, task)];
     console := console st |}.

(** [clients.delete(ws)] *)
Definition Set_delete (i : WsId) (s : list WsId) : list WsId :=
  List.filter (fun j => negb (Nat.eqb j i)) s.

(** [clients.has(ws)] *)
Definition Set_has (i : WsId) (s : list WsId) : bool :=
  existsb (Nat.eqb i) s.

(** [for (const ws of clients) { ... }].  A [Set] iterator visits the
    entries in insertion order and skips an entry deleted before it is
    reached; nothing is added during the loop. *)
Fixpoint broadcastLoop (json : WireMessage) (todo : list WsId)
    (st : Server) : Server :=
  match todo with
  | [] => st
  | i :: rest =>
      if Set_has i (clients st) then
        let ws := sockets st i in
        if ReadyState_eqb (readyState ws) OPEN then
          match ws_send json ws with
          | (ws', Ok _) => broadcastLoop json rest (set_socket i ws' st)
          | (ws', Throw _) =>
              let st := set_socket i ws' st in
              broadcastLoop json rest
                (set_clients (Set_delete i (clients st)) st)
          end
        else broadcastLoop json rest st
      else broadcastLoop json rest st
  end.

Definition broadcast (data : WireMessage) (st : Server) : Server :=
  broadcastLoop data (clients st) st.

(** ** [safeStream] *)

(** The callback [safeStream] passes to [streamTopCategories]. *)
Definition onSnapshot : Callback Server :=
  fun snapshot pageIndex st =>
    let update :=
      TopCategories (clock st) pageIndex
        (map (fun '(category, sum) =>
                {| item_category := category; sum := sum |}) snapshot) in
    let st :=
      console_log (LogBroadcasting (pageIndex + 1) (length (clients st))) st in
    (broadcast update st, Ok tt).

(** [safeStream], with the page source it opens as a parameter. *)
Definition safeStreamFrom (source : AsyncIterable Page) (st : Server)
    : Server :=
  let st := console_log LogStarting st in
  match streamTopCategories source 3 onSnapshot st with
  | (r, Ok _) =>
      setTimeout RestartCycle 5000 (console_log LogCompleted (world r))
  | (r, Throw err) =>
      setTimeout Retry 5000 (console_log (LogFailed err) (world r))
  end.

Definition safeStream : Server -> Server := safeStreamFrom fetchOrderPages.

(** A timer callback being run. *)
Definition runTask (t : Task) (st : Server) : Server :=
  match t with
  | RestartCycle => safeStream (console_log LogRestarting st)
  | Retry => safeStream st
  end.

(** The event loop firing the oldest pending timer: the clock moves to
    its due time and its callback runs. *)
Definition fireTimer (st : Server) : option Server :=
  match timers st with
  | [] => None
  | (due, t) :: rest =>
      Some (runTask t
              {| clients := clients st; sockets := sockets st; clock := due;
                 timers := rest; console := console st |})
  end.

(** The [pageIndex] fields of the updates a connection has received. *)
Definition pageIndices (frames : list WireMessage) : list Z :=
  flat_map (fun m => match m with
                     | TopCategories _ i _ => [i]
                     | Hello _ => []
                     end) frames.

(** ** The same helpers over an object store

    [Map], arrays and object literals are mutable objects held by
    reference.  To speak about what a function writes, the store is made
    explicit here: a finite map from references to objects, and the
    helpers as programs that read, allocate and update it. *)

Module Store.

Abbreviation loc := nat (only parsing).

Inductive obj :=
  | OItem (it : LineItem)                       (* a [LineItem] *)
  | OOrder (oid cid created : string) (st : Status) (its : loc)
                                                (* an [Order]; [its] refers
                                                   to its [items] array *)
  | OArray (elems : list loc)                   (* an array of objects *)
  | OSale (s : CategorySale)                    (* [{ category, total }] *)
  | OMap (entries : JsMap).                     (* a [Map<string, number>] *)

Abbreviation heap := (gmap nat obj) (only parsing).

(** Programs over the store; a failed program keeps the store it reached. *)
Definition M (A : Type) : Type := heap -> heap * Result A.

Definition ret {A} (a : A) : M A := fun h => (h, Ok a).

Definition bind {A B} (m : M A) (k : A -> M B) : M B :=
  fun h => match m h with
           | (h', Ok a) => k a h'
           | (h', Throw e) => (h', Throw e)
           end.

Notation "'let*' x ':=' m 'in' k" := (bind m (fun x => k))
  (at level 10, x name, m at level 100, k at level 200).
Notation "'let*' ' p ':=' m 'in' k" :=
  (bind m (fun x => match x with p => k end))
  (at level 10, p pattern, m at level 100, k at level 200).

(** Allocation of a new object. *)
Definition alloc (o : obj) : M loc :=
  fun h => let l := fresh (dom h) in (<[l := o]> h, Ok l).

Definition load (l : loc) : M obj :=
  fun h => match h !! l with
           | Some o => (h, Ok o)
           | None => (h, Throw TypeError)
           end.

Definition store (l : loc) (o : obj) : M unit :=
  fun h => (<[l := o]> h, Ok tt).

Definition loadMap (l : loc) : M JsMap :=
  let* o := load l in
  match o with OMap m => ret m | _ => fun h => (h, Throw TypeError) end.

Definition loadArray (l : loc) : M (list loc) :=
  let* o := load l in
  match o with OArray ls => ret ls | _ => fun h => (h, Throw TypeError) end.

Definition loadItem (l : loc) : M LineItem :=
  let* o := load l in
  match o with OItem it => ret it | _ => fun h => (h, Throw TypeError) end.

Definition loadSale (l : loc) : M CategorySale :=
  let* o := load l in
  match o with OSale s => ret s | _ => fun h => (h, Throw TypeError) end.

(** The fields [status] and [items] of an order. *)
Definition loadOrder (l : loc) : M (Status * loc) :=
  let* o := load l in
  match o with
  | OOrder _ _ _ st its => ret (st, its)
  | _ => fun h => (h, Throw TypeError)
  end.

(** [array.map(f)], [array.filter(f)] and [array.reduce(f, init)] over the
    elements of an array, with callbacks that act on the store. *)
Fixpoint mapM {A B} (f : A -> M B) (l : list A) : M (list B) :=
  match l with
  | [] => ret []
  | x :: l' => let* y := f x in let* ys := mapM f l' in ret (y :: ys)
  end.

Fixpoint filterM {A} (f : A -> M bool) (l : list A) : M (list A) :=
  match l with
  | [] => ret []
  | x :: l' =>
      let* b := f x in
      let* ys := filterM f l' in
      ret (if b then x :: ys else ys)
  end.

Fixpoint reduceM {A B} (f : B -> A -> M B) (l : list A) (acc : B) : M B :=
  match l with
  | [] => ret acc
  | x :: l' => let* acc' := f acc x in reduceM f l' acc'
  end.

(** [m.get(k)] and [m.set(k, v)] on a [Map] object; [set] updates the
    object in place and returns it. *)
Definition Map_get_at (m : loc) (k : string) : M (option Z) :=
  let* es := loadMap m in ret (Map_get es k).

Definition Map_set_at (m : loc) (k : string) (v : Z) : M loc :=
  let* es := loadMap m in let* _ := store m (OMap (Map_set es k v)) in ret m.

(** [mergeCategoryTotals].  [new Map(a)] copies the entries of [a] into a
    new object; [b.entries()] is read when the reduction starts, the
    reduction writes only to the new object. *)
Definition mergeCategoryTotals (a b : loc) : M loc :=
  let* copied := loadMap a in
  let* init := alloc (OMap copied) in
  let* entries := loadMap b in
  reduceM
    (fun result '(category, total) =>
       let* old := Map_get_at result category in
       Map_set_at result category ((old ?? 0) + total))
    entries init.

(** [processPageToSales].  [filter], [map] and [flatMap] each build a new
    array, the object literal a new object, [new Map()] a new map. *)
Definition processPageToSales (page : loc) : M loc :=
  let* orders := loadArray page in
  let* kept :=
    filterM (fun o => let* '(st, _) := loadOrder o in
                      ret (Status_eqb st paid)) orders in
  let* _ := alloc (OArray kept) in
  let* parts :=
    mapM (fun o =>
            let* '(_, its) := loadOrder o in
            let* lines := loadArray its in
            let* sales :=
              mapM (fun it =>
                      let* li := loadItem it in
                      alloc (OSale {| sale_category := category li;
                                      total := qty li * unitPrice li |}))
                   lines in
            let* _ := alloc (OArray sales) in
            ret sales) kept in
  let* _ := alloc (OArray (concat parts)) in
  let* init := alloc (OMap []) in
  reduceM
    (fun acc s =>
       let* sale := loadSale s in
       let* old := Map_get_at acc (sale_category sale) in
       Map_set_at acc (sale_category sale) ((old ?? 0) + total sale))
    (concat parts) init.

(** How a page value lies in the store. *)
Definition holds_items (h : heap) (l : loc) (its : list LineItem) : Prop :=
  exists ls, h !! l = Some (OArray ls) /\
             Forall2 (fun l it => h !! l = Some (OItem it)) ls its.

Definition holds_order (h : heap) (l : loc) (o : Order) : Prop :=
  exists il, h !! l = Some (OOrder (order_id o) (customerId o) (createdAt o)
                                   (status o) il) /\
             holds_items h il (items o).

Definition holds_page (h : heap) (l : loc) (pg : Page) : Prop :=
  exists ls, h !! l = Some (OArray ls) /\ Forall2 (holds_order h) ls pg.

End Store.

(** ** Vocabulary of the properties *)

(** One step of either reduction: add [v] to the total of [k]. *)
Definition addTotal (m : JsMap) (k : string) (v : Z) : JsMap :=
  Map_set m k ((Map_get m k ?? 0) + v).

(** The sales of a page, in the order the reduction meets them. *)
Definition salesOf (page : Page) : list CategorySale :=
  flat_map
    (fun o => map (fun it => {| sale_category := category it;
                                total := qty it * unitPrice it |})
                  (items o))
    (List.filter (fun o => Status_eqb (status o) paid) page).

(** The order [toSorted byTotalDesc] establishes between neighbours. *)
Definition totalGe (a b : Entry) : Prop := snd b <= snd a.

(** A sequence of entries in which no entry has a smaller total than its
    successor. *)
Definition descending (l : list Entry) : Prop :=
  forall (i : nat) (a b : Entry),
    l !! i = Some a -> l !! S i = Some b -> snd b <= snd a.

(** The snapshot [topNFromMap] takes of [m] when the limit is not negative. *)
Definition snapshotOf (m : JsMap) (limit : Z) : list Entry :=
  firstn (Z.to_nat limit) (toSorted byTotalDesc m).

(** The update of [runningTotals] in one round of the loop. *)
Definition mergePage (running : JsMap) (page : Page) : JsMap :=
  mergeCategoryTotals running (processPageToSales page).

(** The events of a run in which nothing fails, started with the loop
    variables at [running] and [pageIndex]. *)
Fixpoint traceFrom (running : JsMap) (pageIndex : Z) (limit : Z)
    (pages : list Page) : list Event :=
  match pages with
  | [] => []
  | page :: rest =>
      let running := mergePage running page in
      EvPage page :: EvUpdate (snapshotOf running limit) pageIndex
        :: traceFrom running (pageIndex + 1) limit rest
  end.

(** The calls of [onUpdate] in a trace, and the pages taken in it. *)
Definition updates (tr : list Event) : list (list Entry * Z) :=
  flat_map (fun e => match e with
                     | EvUpdate s i => [(s, i)]
                     | EvPage _ => []
                     end) tr.

Definition drawn (tr : list Event) : list Page :=
  flat_map (fun e => match e with
                     | EvPage p => [p]
                     | EvUpdate _ _ => []
                     end) tr.

(** The world after [onUpdate] has been called with each of [calls] in
    turn. *)
Definition callAll {W} (onUpdate : Callback W) (calls : list (list Entry * Z))
    (w : W) : W :=
  fold_left (fun w '(s, i) => fst (onUpdate s i w)) calls w.

(** Every line item of every order has a non-negative quantity and price. *)
Definition nonNegative (pages : list Page) : Prop :=
  forall page o it,
    In page pages -> In o page -> In it (items o) ->
    0 <= qty it /\ 0 <= unitPrice it.

(** [a'] has every key of [a], with a total that is not smaller. *)
Definition totalsLe (a a' : JsMap) : Prop :=
  forall c,
    totalOf a c <= totalOf a' c /\
    (forall v, Map_get a c = Some v ->
       exists v', Map_get a' c = Some v' /\ v <= v').

(** [ws.readyState === ws.OPEN] for the connection [i]. *)
Definition isOpen (st : Server) (i : WsId) : bool :=
  ReadyState_eqb (readyState (sockets st i)) OPEN.

(** A connection a broadcast removes: open, and its [send] raises. *)
Definition dropped (st : Server) (i : WsId) : bool :=
  isOpen st i && sendThrows (sockets st i).

(** A subscriber that is in the set, open, and whose [send] works. *)
Definition healthy (st : Server) (i : WsId) : Prop :=
  In i (clients st) /\ isOpen st i = true /\
  sendThrows (sockets st i) = false.

(** Several broadcasts, one after the other. *)
Definition broadcastAll (msgs : list WireMessage) (st : Server) : Server :=
  fold_left (fun st m => broadcast m st) msgs st.


(** ** More vocabulary: what the helpers compute *)

(** The line items of the paid orders of a page, in order. *)
Definition paidItems (page : Page) : list LineItem :=
  flat_map items (List.filter (fun o => Status_eqb (status o) paid) page).

(** The sum of [qty * unitPrice] over the paid line items of category
    [c], added up from 0 in the order of the page, as the reduction of
    [processPageToSales] adds them. *)
Definition categoryTotal (c : string) (page : Page) : Z :=
  fold_left Z.add
    (map (fun it => qty it * unitPrice it)
         (List.filter (fun it => String.eqb (category it) c) (paidItems page)))
    0.

(** [Number.MAX_SAFE_INTEGER].  Every integer up to it in absolute value
    is a double, and a sum or product of such integers that stays in this
    range is computed exactly by the program: there its arithmetic is the
    integer arithmetic of the model, and in particular is associative. *)
Definition MAX_SAFE_INTEGER : Z := 2 ^ 53 - 1.

(** Orders on which the arithmetic of the helpers is exact: the
    quantities and prices of the paid line items are in the safe range,
    and the absolute amounts [|qty * unitPrice|] add up to at most
    [MAX_SAFE_INTEGER], so that every product and every sum of products
    the program can form, in whatever order, is in the safe range. *)
Definition exactAmounts (orders : list Order) : Prop :=
  (forall it, In it (paidItems orders) ->
     Z.abs (qty it) <= MAX_SAFE_INTEGER /\
     Z.abs (unitPrice it) <= MAX_SAFE_INTEGER) /\
  fold_left Z.add
    (map (fun it => Z.abs (qty it * unitPrice it)) (paidItems orders)) 0
  <= MAX_SAFE_INTEGER.

(** Entries on which adding totals is exact: their absolute values add
    up to at most [MAX_SAFE_INTEGER]. *)
Definition exactTotals (entries : list Entry) : Prop :=
  fold_left Z.add (map (fun e => Z.abs (snd e)) entries) 0
  <= MAX_SAFE_INTEGER.

(** The distinct elements of a list of keys, each at its first place. *)
Fixpoint firstOccurrences (l : list string) : list string :=
  match l with
  | [] => []
  | k :: l' =>
      k :: List.filter (fun k' => negb (String.eqb k' k)) (firstOccurrences l')
  end.

(** Membership of a key in a list of keys. *)
Definition hasKey (k : string) (ks : list string) : bool :=
  existsb (String.eqb k) ks.

(** The reduction both helpers run: add each sale to its category. *)
Definition aggregate (sales : list CategorySale) (m : JsMap) : JsMap :=
  fold_left (fun acc s => addTotal acc (sale_category s) (total s)) sales m.


(** The source that yields [pages] and then goes on as [rest]. *)
Fixpoint followedBy {A} (pages : list A) (rest : AsyncIterable A)
    : AsyncIterable A :=
  match pages with
  | [] => rest
  | x :: l => Yields x (followedBy l rest)
  end.

(** [l1] is an initial part of [l2]. *)
Definition isPrefix {A} (l1 l2 : list A) : Prop := exists l, l2 = l1 ++ l.


(** ** The connection handlers of the server *)

(** [clients.add(ws)] *)
Definition Set_add (i : WsId) (s : list WsId) : list WsId :=
  if Set_has i s then s else s ++ [i].

(** The greeting sent to a new connection. *)
Definition greeting : WireMessage := Hello "Connected. Waiting for updates…".

(** The handler of the server's [connection] event for the connection
    [i]: it adds the connection to [clients], registers the two handlers
    below on it, sends the greeting and prints the number of clients.  An
    exception of [send] leaves the handler.  The result carries the number
    the handler prints.  The event is raised for a connection that is
    open. *)
Definition onConnection (i : WsId) (st : Server) : Server * Result nat :=
  let st := set_clients (Set_add i (clients st)) st in
  match ws_send greeting (sockets st i) with
  | (ws', Ok _) =>
      let st := set_socket i ws' st in
      (st, Ok (length (clients st)))
  | (ws', Throw e) => (set_socket i ws' st, Throw e)
  end.

(** The handlers of the [close] and [error] events of the connection [i],
    both [() => clients.delete(ws)]. *)
Definition onClose (i : WsId) (st : Server) : Server :=
  set_clients (Set_delete i (clients st)) st.

Definition onError (i : WsId) (st : Server) : Server :=
  set_clients (Set_delete i (clients st)) st.

(** The event loop firing [n] timers in turn. *)
Fixpoint fireTimers (n : nat) (st : Server) : option Server :=
  match n with
  | O => Some st
  | S n' =>
      match fireTimer st with
      | Some st' => fireTimers n' st'
      | None => None
      end
  end.

(** The [items] of the update built from a snapshot. *)
Definition itemsOf (snapshot : list Entry) : list Item :=
  map (fun '(category, sum) => {| item_category := category; sum := sum |})
      snapshot.

(** The update frames of a run of [safeStream] over [pages] started at
    clock reading [now], with the loop variables at [running] and
    [pageIndex]. *)
Fixpoint framesFrom (now : Z) (running : JsMap) (pageIndex : Z)
    (pages : list Page) : list WireMessage :=
  match pages with
  | [] => []
  | page :: rest =>
      let running := mergePage running page in
      TopCategories now pageIndex (itemsOf (snapshotOf running 3))
        :: framesFrom now running (pageIndex + 1) rest
  end.

(** An update frame with at most three items, of distinct categories, in
    descending order of [sum]. *)
Definition wellFormedUpdate (m : WireMessage) : Prop :=
  match m with
  | Hello _ => False
  | TopCategories _ _ its =>
      (length its <= 3)%nat /\
      NoDup (map item_category its) /\
      forall (j : nat) (x y : Item),
        its !! j = Some x -> its !! S j = Some y -> sum y <= sum x
  end.


(** ** The scripts of Steps 1 to 3 *)

Record ItemSale := {
  sale_customerId : string;
  item_sale_category : string;
  item_sale_total : Z
}.

(** [structuredClone(x)]: a deep copy; on values, the value itself. *)
Definition structuredClone {A} (x : A) : A := x.

(** The object literal [{ customerId, category, total }] for a line item
    of an order. *)
Definition itemSale (o : Order) (it : LineItem) : ItemSale :=
  {| sale_customerId := customerId o;
     item_sale_category := category it;
     item_sale_total := qty it * unitPrice it |}.

(** Step 3, [createItemSales]: the generator that goes through the pages
    of a source and yields one sale per line item of each paid order. *)
Fixpoint createItemSales (pages : AsyncIterable Page) : AsyncIterable ItemSale :=
  match pages with
  | Done => Done
  | Fails e => Fails e
  | Yields page rest =>
      followedBy
        (flat_map
           (fun order =>
              if Status_eqb (status order) paid then
                let clonedOrder := structuredClone order in
                map (itemSale clonedOrder) (items clonedOrder)
              else [])
           page)
        (createItemSales rest)
  end.

(** The variables of the streaming fold of Step 3, with the counts its
    progress line has shown. *)
Record Fold := {
  itemCount : Z;
  foldTotals : JsMap;
  progress : list Z
}.

(** Step 3, the loop [for await (const sale of itemSales) { ... }]. *)
Fixpoint streamingFold (itemSales : AsyncIterable ItemSale) (s : Fold)
    : Fold * Result unit :=
  match itemSales with
  | Done => (s, Ok tt)
  | Fails e => (s, Throw e)
  | Yields sale rest =>
      let itemCount := itemCount s + 1 in
      let progress :=
        if itemCount mod 2 =? 0 then progress s ++ [itemCount]
        else progress s in
      let totals :=
        Map_set (foldTotals s) (item_sale_category sale)
          ((Map_get (foldTotals s) (item_sale_category sale) ?? 0)
           + item_sale_total sale) in
      streamingFold rest
        {| itemCount := itemCount; foldTotals := totals;
           progress := progress |}
  end.

(** Step 3 as a whole, for a given page source: the fold from the initial
    variables, then the top 3 of the totals. *)
Definition step3 (source : AsyncIterable Page)
    : Fold * Result (list Entry) :=
  match streamingFold (createItemSales source)
          {| itemCount := 0; foldTotals := []; progress := [] |} with
  | (s, Ok _) => (s, topNFromMap (foldTotals s) 3)
  | (s, Throw e) => (s, Throw e)
  end.

(** [Map.groupBy(items, keyOf)]: the groups in the order in which their
    keys first occur, each with its elements in their order. *)
Fixpoint group_add {A} (g : list (string * list A)) (k : string) (x : A)
    : list (string * list A) :=
  match g with
  | [] => [(k, [x])]
  | (k', xs) :: g' =>
      if String.eqb k' k then (k', xs ++ [x]) :: g'
      else (k', xs) :: group_add g' k x
  end.

Definition Map_groupBy {A} (l : list A) (keyOf : A -> string)
    : list (string * list A) :=
  fold_left (fun g x => group_add g (keyOf x) x) l [].

(** Steps 1 and 2, the pipeline from orders to item sales:
    [.filter(o => o.status === 'paid').map(o => structuredClone(o))
     .flatMap(o => o.items.flatMap(it => [{ ... }]))]. *)
Definition itemSalesOf (orders : list Order) : list ItemSale :=
  flat_map
    (fun o => flat_map (fun it => [itemSale o it]) (items o))
    (map structuredClone
         (List.filter (fun o => Status_eqb (status o) paid) orders)).

(** Steps 1 and 2, the ranking: group by category, sum each group, sort,
    take 3. *)
Definition top3ByGroups (sales : list ItemSale) : Result (list Entry) :=
  let byCat := Map_groupBy sales item_sale_category in
  Iterator_take 3
    (toSorted byTotalDesc
       (map (fun '(category, arr) =>
               (category,
                fold_left (fun a s => a + item_sale_total s) arr 0))
            byCat)).

(** Step 1 on the orders its source yields, and Step 2 on the pages it
    has collected with [Array.fromAsync], flattened. *)
Definition step1 (orders : list Order) : Result (list Entry) :=
  top3ByGroups (itemSalesOf orders).

(** [Array.fromAsync(source)] *)
Definition Array_fromAsync {A} (source : AsyncIterable A) : Result (list A) :=
  (fix collect (it : AsyncIterable A) (acc : list A) : Result (list A) :=
     match it with
     | Done => Ok acc
     | Fails e => Throw e
     | Yields x rest => collect rest (acc ++ [x])
     end) source [].

Definition step2 (source : AsyncIterable Page) : Result (list Entry) :=
  match Array_fromAsync source with
  | Ok allOrderPages =>
      top3ByGroups (itemSalesOf (flat_map (fun page => page) allOrderPages))
  | Throw e => Throw e
  end.

(** The sale of a script, as the server's helper sees it. *)
Definition asCategorySale (x : ItemSale) : CategorySale :=
  {| sale_category := item_sale_category x; total := item_sale_total x |}.

(** How a source ends. *)
Fixpoint outcome {A} (it : AsyncIterable A) : Result unit :=
  match it with
  | Done => Ok tt
  | Fails e => Throw e
  | Yields _ rest => outcome rest
  end.

(** The counts at which Step 3 rewrites its progress line while it takes
    [n] items, having taken [count] before. *)
Definition progressCounts (count : Z) (n : nat) : list Z :=
  List.filter (fun k => k mod 2 =? 0)
              (map (fun j => count + Z.of_nat j) (seq 1 n)).

(* ================================================================== *)
(** * Part II. Properties                                              *)
(* ================================================================== *)

(** ** Facts about [Map_get] and [Map_set] *)

Section MapFacts.

Implicit Types (m : JsMap) (k : string) (v : Z).

Lemma Map_get_set_eq m k v : Map_get (Map_set m k v) k = Some v.
Proof.
  induction m as [|[k' v'] m IH]; simpl.
  - by rewrite String.eqb_refl.
  - destruct (String.eqb k' k) eqn:E; simpl; rewrite E; auto.
Qed.

Lemma Map_get_set_ne m k k' v :
  k <> k' -> Map_get (Map_set m k v) k' = Map_get m k'.
Proof.
  intros Hne. induction m as [|[k0 v0] m IH]; simpl.
  - destruct (String.eqb k k') eqn:E; auto.
    apply String.eqb_eq in E. contradiction.
  - destruct (String.eqb k0 k) eqn:E; simpl.
    + apply String.eqb_eq in E. subst k0.
      destruct (String.eqb k k') eqn:E'; auto.
      apply String.eqb_eq in E'. contradiction.
    + destruct (String.eqb k0 k'); auto.
Qed.

Lemma Map_get_None m k : Map_get m k = None <-> ~ In k (keys m).
Proof.
  induction m as [|[k' v'] m IH]; simpl.
  - tauto.
  - destruct (String.eqb k' k) eqn:E.
    + apply String.eqb_eq in E. split; [discriminate | tauto].
    + apply String.eqb_neq in E. tauto.
Qed.

Lemma Map_get_In m k v : Map_get m k = Some v -> In (k, v) m.
Proof.
  induction m as [|[k' v'] m IH]; simpl; [discriminate|].
  destruct (String.eqb k' k) eqn:E; auto.
  apply String.eqb_eq in E. intros [= ->]. subst. auto.
Qed.

Lemma In_Map_get m k v : Map_wf m -> In (k, v) m -> Map_get m k = Some v.
Proof.
  unfold Map_wf. induction m as [|[k' v'] m IH]; simpl; [tauto|].
  intros Hnd [Heq | Hin].
  - inversion Heq; subst. by rewrite String.eqb_refl.
  - apply NoDup_cons in Hnd as [Hk' Hnd].
    destruct (String.eqb k' k) eqn:E; auto.
    apply String.eqb_eq in E. subst k'. exfalso. apply Hk'.
    apply list_elem_of_In. change k with (fst (k, v)). by apply in_map.
Qed.

Lemma keys_set_present m k v : In k (keys m) -> keys (Map_set m k v) = keys m.
Proof.
  induction m as [|[k' v'] m IH]; simpl; [tauto|].
  destruct (String.eqb k' k) eqn:E; simpl; auto.
  apply String.eqb_neq in E. intros [? | Hin]; [contradiction|].
  by rewrite IH.
Qed.

Lemma keys_set_absent m k v :
  ~ In k (keys m) -> Map_set m k v = m ++ [(k, v)].
Proof.
  induction m as [|[k' v'] m IH]; simpl; auto.
  destruct (String.eqb k' k) eqn:E.
  - apply String.eqb_eq in E. tauto.
  - intros Hn. rewrite IH; tauto.
Qed.

Lemma Map_set_wf m k v : Map_wf m -> Map_wf (Map_set m k v).
Proof.
  unfold Map_wf. intros Hnd.
  destruct (in_dec String.string_dec k (keys m)) as [Hin | Hnin].
  - by rewrite keys_set_present.
  - rewrite keys_set_absent by done. unfold keys. rewrite map_app. simpl.
    apply NoDup_app. split_and!; auto.
    + intros x Hx Hx'. apply list_elem_of_In in Hx.
      apply list_elem_of_singleton in Hx'. subst. contradiction.
    + apply NoDup_singleton.
Qed.

Lemma In_Map_set m k v k' v' :
  In (k', v') (Map_set m k v) -> (k' = k /\ v' = v) \/ In (k', v') m.
Proof.
  induction m as [|[k0 v0] m IH]; simpl.
  - intros [[= <- <-] | []]. auto.
  - destruct (String.eqb k0 k) eqn:E; simpl.
    + apply String.eqb_eq in E. subst k0.
      intros [[= <- <-] | ?]; auto.
    + intros [? | ?]; auto. destruct IH as [? | ?]; auto.
Qed.

Lemma Map_size_set_le m k v : (Map_size m <= Map_size (Map_set m k v))%nat.
Proof.
  unfold Map_size. induction m as [|[k0 v0] m IH]; simpl; [lia|].
  destruct (String.eqb k0 k); simpl; lia.
Qed.

End MapFacts.

(** ** [mergeCategoryTotals] and [processPageToSales] *)

Section Totals.

Implicit Types (a b m : JsMap) (k c : string) (v : Z).

Lemma mergeCategoryTotals_nil a : mergeCategoryTotals a [] = a.
Proof. reflexivity. Qed.

Lemma mergeCategoryTotals_cons a k v b :
  mergeCategoryTotals a ((k, v) :: b) = mergeCategoryTotals (addTotal a k v) b.
Proof. reflexivity. Qed.

Lemma addTotal_wf m k v : Map_wf m -> Map_wf (addTotal m k v).
Proof. apply Map_set_wf. Qed.

Lemma mergeCategoryTotals_wf a b :
  Map_wf a -> Map_wf (mergeCategoryTotals a b).
Proof.
  revert a. induction b as [|[k v] b IH]; intros a Ha; auto.
  rewrite mergeCategoryTotals_cons. apply IH. by apply addTotal_wf.
Qed.

(** A key the page does not mention keeps its value. *)
Lemma mergeCategoryTotals_absent a b k :
  Map_get b k = None ->
  Map_get (mergeCategoryTotals a b) k = Map_get a k.
Proof.
  revert a. induction b as [|[k' v'] b IH]; intros a Hb; auto.
  simpl in Hb. destruct (String.eqb k' k) eqn:E; [discriminate|].
  apply String.eqb_neq in E.
  rewrite mergeCategoryTotals_cons, IH by done.
  by apply Map_get_set_ne.
Qed.

(** A key of the page has the page's value added to it. *)
Lemma mergeCategoryTotals_present a b k v :
  Map_wf b -> Map_get b k = Some v ->
  Map_get (mergeCategoryTotals a b) k = Some ((Map_get a k ?? 0) + v).
Proof.
  revert a. induction b as [|[k' v'] b IH]; intros a Hwf Hb; [discriminate|].
  unfold Map_wf in Hwf. simpl in Hwf. apply NoDup_cons in Hwf as [Hk' Hwf].
  simpl in Hb. rewrite mergeCategoryTotals_cons.
  destruct (String.eqb k' k) eqn:E.
  - apply String.eqb_eq in E. subst k'. injection Hb as ->.
    rewrite mergeCategoryTotals_absent.
    + apply Map_get_set_eq.
    + apply Map_get_None. intros Hin. apply Hk'. by apply list_elem_of_In.
  - apply String.eqb_neq in E. rewrite IH by done.
    unfold addTotal. by rewrite Map_get_set_ne.
Qed.

Lemma processPageToSales_nil : processPageToSales [] = [].
Proof. reflexivity. Qed.

Lemma processPageToSales_fold page :
  processPageToSales page =
  fold_left (fun acc s => addTotal acc (sale_category s) (total s))
            (salesOf page) [].
Proof. reflexivity. Qed.

Lemma fold_addTotal_wf (sales : list CategorySale) m :
  Map_wf m ->
  Map_wf (fold_left (fun acc s => addTotal acc (sale_category s) (total s))
                    sales m).
Proof.
  revert m. induction sales as [|s sales IH]; intros m Hm; simpl; auto.
  apply IH. by apply addTotal_wf.
Qed.

Lemma processPageToSales_wf page : Map_wf (processPageToSales page).
Proof.
  rewrite processPageToSales_fold. apply fold_addTotal_wf.
  unfold Map_wf. simpl. apply NoDup_nil. done.
Qed.

Lemma runningAfter_0 pages : runningAfter pages 0 = [].
Proof. reflexivity. Qed.

Lemma runningAfter_S pages (n : nat) page :
  pages !! n = Some page ->
  runningAfter pages (S n) =
  mergeCategoryTotals (runningAfter pages n) (processPageToSales page).
Proof.
  intros Hk. unfold runningAfter.
  change (firstn (S n) pages) with (take (S n) pages).
  rewrite (take_S_r _ _ _ Hk), fold_left_app. reflexivity.
Qed.

Lemma runningAfter_past pages (n : nat) :
  (length pages <= n)%nat -> runningAfter pages (S n) = runningAfter pages n.
Proof.
  intros Hk. unfold runningAfter.
  rewrite !firstn_all2 by lia. reflexivity.
Qed.

Lemma runningAfter_wf pages (n : nat) : Map_wf (runningAfter pages n).
Proof.
  unfold runningAfter.
  assert (H : forall (l : list Page) m, Map_wf m ->
            Map_wf (fold_left (fun running page =>
                      mergeCategoryTotals running (processPageToSales page))
                    l m)).
  { induction l as [|p l IH]; intros m Hm; simpl; auto.
    apply IH. by apply mergeCategoryTotals_wf. }
  apply H. unfold Map_wf. simpl. by apply NoDup_nil.
Qed.

End Totals.

(** Distinctness of the keys of a given map, by computation. *)
Ltac solve_wf :=
  unfold Map_wf; apply (bool_decide_unpack _); vm_compute; exact I.

(** C6.  [mergeCategoryTotals running pageTotals] is a mapping in which
    every key of [pageTotals] holds the value it had in [running] (0 when
    absent) plus the page's value, and every key that only [running] has
    keeps its value. *)
Theorem C6_merge_adds_page_totals (running pageTotals : JsMap) :
  Map_wf running -> Map_wf pageTotals ->
  Map_wf (mergeCategoryTotals running pageTotals) /\
  (forall k v, Map_get pageTotals k = Some v ->
     Map_get (mergeCategoryTotals running pageTotals) k
     = Some ((Map_get running k ?? 0) + v)) /\
  (forall k, Map_get pageTotals k = None ->
     Map_get (mergeCategoryTotals running pageTotals) k
     = Map_get running k).
Proof.
  intros Hr Hp. split_and!.
  - by apply mergeCategoryTotals_wf.
  - intros k v. by apply mergeCategoryTotals_present.
  - intros k. apply mergeCategoryTotals_absent.
Qed.

Lemma C6_witness :
  let running := [("books", 2400); ("food", 1500)] in
  let pageTotals := [("tools", 9999); ("books", 100)] in
  mergeCategoryTotals running pageTotals
  = [("books", 2500); ("food", 1500); ("tools", 9999)] /\
  Map_get (mergeCategoryTotals running pageTotals) "books" = Some (2400 + 100) /\
  Map_get (mergeCategoryTotals running pageTotals) "tools" = Some (0 + 9999) /\
  Map_get (mergeCategoryTotals running pageTotals) "food" = Some 1500.
Proof.
  intros running pageTotals.
  assert (Hr : Map_wf running) by solve_wf.
  assert (Hp : Map_wf pageTotals) by solve_wf.
  destruct (C6_merge_adds_page_totals running pageTotals Hr Hp) as (_ & Hin & Hout).
  split; [reflexivity|]. split_and!.
  - apply (Hin "books" 100). reflexivity.
  - apply (Hin "tools" 9999). reflexivity.
  - rewrite (Hout "food"); reflexivity.
Defined.

(** C7.  Merging the totals of an empty page into a running mapping gives
    the running mapping back: the same entries, hence the same value for
    every key. *)
Theorem C7_merge_empty_page (running : JsMap) :
  mergeCategoryTotals running (processPageToSales []) = running /\
  (forall k, Map_get (mergeCategoryTotals running (processPageToSales [])) k
             = Map_get running k).
Proof. split; [reflexivity | intros k; reflexivity]. Qed.

(** ** The end-to-end scenarios of the specification, by evaluation *)

(** Scenario A: two pages, the second with a pending order. *)
Example scenario_A :
  let page1 := [ {| order_id := "a1"; customerId := "c1"; createdAt := "";
                    status := paid;
                    items := [ item "A1" 2 1200 "books";
                               item "F4" 3 500 "food" ] |} ] in
  let page2 := [ {| order_id := "a2"; customerId := "c2"; createdAt := "";
                    status := paid;
                    items := [ item "T9" 1 9999 "tools" ] |};
                 {| order_id := "a3"; customerId := "c3"; createdAt := "";
                    status := pending;
                    items := [ item "X" 10 100 "food" ] |} ] in
  world (fst (streamTopCategories (ofList [page1; page2]) 3 recordCalls []))
  = [ ([("books", 2400); ("food", 1500)], 0);
      ([("tools", 9999); ("books", 2400); ("food", 1500)], 1) ].
Proof. reflexivity. Qed.

(** Scenario B: a category met again on a later page accumulates. *)
Example scenario_B :
  let page1 := [ {| order_id := "b1"; customerId := "c1"; createdAt := "";
                    status := paid;
                    items := [ item "A1" 2 1200 "books" ] |} ] in
  let page2 := [ {| order_id := "b2"; customerId := "c2"; createdAt := "";
                    status := paid;
                    items := [ item "B2" 1 100 "books" ] |} ] in
  streamTopCategories (ofList [page1; page2]) 3 recordCalls []
  = ({| world := [ ([("books", 2400)], 0); ([("books", 2500)], 1) ];
        trace := [ EvPage page1; EvUpdate [("books", 2400)] 0;
                   EvPage page2; EvUpdate [("books", 2500)] 1 ] |},
     Ok [("books", 2500)]).
Proof. reflexivity. Qed.

(** An order that is not paid adds nothing. *)
Lemma unpaid_order_excluded (o : Order) (page : Page) :
  status o <> paid ->
  processPageToSales (o :: page) = processPageToSales page.
Proof.
  intros Hst. unfold processPageToSales. simpl.
  destruct (status o); simpl; congruence.
Qed.

(** ** [toSorted] and [topNFromMap] *)

Section Sorting.

Implicit Types (x y : Entry) (l : list Entry).

Lemma insertSorted_Permutation x l :
  Permutation (insertSorted byTotalDesc x l) (x :: l).
Proof.
  induction l as [|y l IH]; simpl; [reflexivity|].
  destruct (byTotalDesc x y <=? 0); [reflexivity|].
  rewrite IH. apply perm_swap.
Qed.

Lemma toSorted_Permutation l : Permutation (toSorted byTotalDesc l) l.
Proof.
  induction l as [|x l IH]; simpl; [reflexivity|].
  rewrite insertSorted_Permutation. by constructor.
Qed.

Lemma toSorted_length l : length (toSorted byTotalDesc l) = length l.
Proof. apply Permutation_length, toSorted_Permutation. Qed.

Lemma insertSorted_HdRel x y l :
  snd x <= snd y -> HdRel totalGe y l ->
  HdRel totalGe y (insertSorted byTotalDesc x l).
Proof.
  intros Hxy Hl. destruct l as [|z l]; simpl.
  - constructor. exact Hxy.
  - destruct (byTotalDesc x z <=? 0); constructor; auto.
    by inversion Hl.
Qed.

Lemma insertSorted_Sorted x l :
  Sorted totalGe l -> Sorted totalGe (insertSorted byTotalDesc x l).
Proof.
  induction 1 as [|y l Hl IH Hhd]; simpl.
  - repeat constructor.
  - unfold byTotalDesc at 1. destruct (Z.leb_spec (snd y - snd x) 0) as [Hle | Hgt].
    + constructor; [by constructor|]. constructor. unfold totalGe. lia.
    + constructor; [exact IH|]. apply insertSorted_HdRel; auto. lia.
Qed.

Lemma toSorted_Sorted l : Sorted totalGe (toSorted byTotalDesc l).
Proof.
  induction l as [|x l IH]; simpl; [constructor|].
  by apply insertSorted_Sorted.
Qed.

Lemma Sorted_firstn (n : nat) l : Sorted totalGe l -> Sorted totalGe (firstn n l).
Proof.
  intros Hs. revert n. induction Hs as [|y l Hl IH Hhd]; intros [|n]; simpl;
    try constructor.
  - apply IH.
  - destruct Hhd as [|z l' Hz]; destruct n; simpl; constructor. exact Hz.
Qed.

Lemma Sorted_descending l : Sorted totalGe l -> descending l.
Proof.
  intros Hs i. revert l Hs. induction i as [|i IH]; intros l Hs a b Ha Hb.
  - destruct Hs as [|y l Hl Hhd]; [discriminate|].
    simpl in Ha, Hb. injection Ha as ->.
    destruct Hhd as [|z l' Hz]; [discriminate|].
    simpl in Hb. injection Hb as ->. exact Hz.
  - destruct Hs as [|y l Hl Hhd]; [discriminate|].
    simpl in Ha, Hb. eapply IH; eauto.
Qed.

Lemma topNFromMap_negative (m : JsMap) n :
  n < 0 -> topNFromMap m n = Throw RangeError.
Proof.
  intros Hn. unfold topNFromMap, Iterator_take.
  destruct (Z.ltb_spec n 0); [reflexivity | lia].
Qed.

Lemma topNFromMap_nonneg (m : JsMap) n :
  0 <= n ->
  topNFromMap m n = Ok (firstn (Z.to_nat n) (toSorted byTotalDesc m)).
Proof.
  intros Hn. unfold topNFromMap, Iterator_take.
  destruct (Z.ltb_spec n 0); [lia | reflexivity].
Qed.

Lemma topNFromMap_Ok (m : JsMap) n snapshot :
  topNFromMap m n = Ok snapshot ->
  0 <= n /\ snapshot = firstn (Z.to_nat n) (toSorted byTotalDesc m).
Proof.
  unfold topNFromMap, Iterator_take.
  destruct (Z.ltb_spec n 0); [discriminate|]. intros [= <-]. auto.
Qed.

End Sorting.

(** C5.  In every snapshot [topNFromMap] returns, each entry's total is at
    least the total of the entry that follows it. *)
Theorem C5_snapshot_sorted_descending (m : JsMap) (n : Z)
    (snapshot : list Entry) :
  topNFromMap m n = Ok snapshot ->
  forall (i : nat) (a b : Entry),
    snapshot !! i = Some a -> snapshot !! S i = Some b -> snd a >= snd b.
Proof.
  intros Hok i a b Ha Hb.
  apply topNFromMap_Ok in Hok as [_ ->].
  apply Z.le_ge.
  apply (Sorted_descending _ (Sorted_firstn _ _ (toSorted_Sorted m)) i a b Ha Hb).
Qed.

Lemma C5_witness :
  topNFromMap [("food", 1500); ("tools", 9999); ("books", 2400)] 3
  = Ok [("tools", 9999); ("books", 2400); ("food", 1500)] /\
  9999 >= 2400 /\ 2400 >= 1500.
Proof.
  pose (m := [("food", 1500); ("tools", 9999); ("books", 2400)] : JsMap).
  pose (s := [("tools", 9999); ("books", 2400); ("food", 1500)] : list Entry).
  assert (H : topNFromMap m 3 = Ok s) by reflexivity.
  split; [exact H|]. split.
  - exact (C5_snapshot_sorted_descending m 3 s H 0%nat
             ("tools", 9999) ("books", 2400) eq_refl eq_refl).
  - exact (C5_snapshot_sorted_descending m 3 s H 1%nat
             ("books", 2400) ("food", 1500) eq_refl eq_refl).
Defined.

(** C3, as the specification words it: every limit [<= 0] gives the empty
    sequence.  It fails at limit [-1], where [take] raises. *)
Lemma C3_counterexample :
  -1 <= 0 /\
  topNFromMap [("books", 2400)] (-1) = Throw RangeError /\
  topNFromMap [("books", 2400)] (-1) <> Ok [].
Proof. split; [lia|]. split; [reflexivity | discriminate]. Qed.

(** C3, amended.  [topNFromMap] returns the empty sequence for limit 0,
    raises a [RangeError] for a limit of -1 or less, and for a limit
    greater than the number of categories returns all the entries of the
    mapping (sorted by descending total). *)
Theorem C3_limit_edges (m : JsMap) (limit : Z) :
  (limit = 0 -> topNFromMap m limit = Ok []) /\
  (limit <= -1 -> topNFromMap m limit = Throw RangeError) /\
  (Z.of_nat (Map_size m) < limit ->
     exists snapshot,
       topNFromMap m limit = Ok snapshot /\
       Permutation snapshot m /\
       length snapshot = Map_size m /\
       descending snapshot).
Proof.
  split_and!.
  - intros ->. reflexivity.
  - intros Hneg. apply topNFromMap_negative. lia.
  - intros Hlt. exists (toSorted byTotalDesc m).
    assert (Hall : firstn (Z.to_nat limit) (toSorted byTotalDesc m)
                   = toSorted byTotalDesc m).
    { apply firstn_all2. rewrite toSorted_length. unfold Map_size in Hlt. lia. }
    split_and!.
    + rewrite topNFromMap_nonneg by lia. by rewrite Hall.
    + apply toSorted_Permutation.
    + apply toSorted_length.
    + apply Sorted_descending, toSorted_Sorted.
Qed.

Lemma C3_witness :
  topNFromMap [("food", 1500); ("tools", 9999)] 0 = Ok [] /\
  topNFromMap [("food", 1500); ("tools", 9999)] (-2) = Throw RangeError /\
  exists snapshot,
    topNFromMap [("food", 1500); ("tools", 9999)] 5 = Ok snapshot /\
    Permutation snapshot [("food", 1500); ("tools", 9999)] /\
    length snapshot = 2%nat /\
    descending snapshot.
Proof.
  pose (m := [("food", 1500); ("tools", 9999)] : JsMap).
  split_and!.
  - apply (proj1 (C3_limit_edges m 0)). reflexivity.
  - apply (proj1 (proj2 (C3_limit_edges m (-2)))). lia.
  - apply (proj2 (proj2 (C3_limit_edges m 5))). simpl. lia.
Defined.

(** ** The loop of [streamTopCategories] *)

Section Stream.

Context {W : Type}.
Implicit Types (onUpdate : Callback W) (r : Run W) (pages : list Page).

Lemma runningAfter_fold pages (n : nat) :
  runningAfter pages n = fold_left mergePage (firstn n pages) [].
Proof. reflexivity. Qed.

(** A run that returns has gone through every page. *)
Lemma forAwait_Ok onUpdate limit pages :
  forall running idx r r' totals,
    forAwait (ofList pages) limit onUpdate running idx r = (r', Ok totals) ->
    totals = fold_left mergePage pages running /\
    trace r' = trace r ++ traceFrom running idx limit pages /\
    world r' = callAll onUpdate (updates (traceFrom running idx limit pages))
                       (world r).
Proof.
  induction pages as [|page rest IH]; intros running idx r r' totals Hrun.
  - simpl in Hrun. injection Hrun as <- <-. simpl. by rewrite app_nil_r.
  - simpl in Hrun.
    destruct (topNFromMap _ limit) as [snapshot | e] eqn:Htop; [|discriminate].
    apply topNFromMap_Ok in Htop as [_ ->].
    destruct (onUpdate _ idx (world r)) as [w [[] | e]] eqn:Hcb; [|discriminate].
    apply IH in Hrun as (-> & -> & ->). simpl.
    split_and!; [reflexivity | | ].
    + by rewrite <- !app_assoc.
    + change (onUpdate (snapshotOf (mergePage running page) limit) idx
                       (world r) = (w, Ok ())) in Hcb.
      by rewrite Hcb.
Qed.

(** Whatever the outcome, the events of a run are an initial part of the
    events of the run without failure. *)
Lemma forAwait_prefix onUpdate limit (src : AsyncIterable Page) :
  forall running idx r,
    exists tr,
      trace (fst (forAwait src limit onUpdate running idx r)) = trace r ++ tr /\
      tr `prefix_of` traceFrom running idx limit (yielded src).
Proof.
  induction src as [| e | page rest IH]; intros running idx r.
  - exists []. simpl. split; [by rewrite app_nil_r | apply prefix_nil].
  - exists []. simpl. split; [by rewrite app_nil_r | apply prefix_nil].
  - simpl.
    destruct (topNFromMap _ limit) as [snapshot | e] eqn:Htop.
    + apply topNFromMap_Ok in Htop as [_ ->].
      destruct (onUpdate _ idx (world r)) as [w [[] | e]] eqn:Hcb.
      * edestruct IH as (tr & Htr & Hpre). rewrite Htr. simpl.
        exists (EvPage page
                  :: EvUpdate (snapshotOf (mergePage running page) limit) idx
                  :: tr).
        split.
        -- rewrite <- !app_assoc. reflexivity.
        -- by do 2 apply prefix_cons.
      * exists [EvPage page]. simpl. split; [reflexivity|].
        apply prefix_cons, prefix_nil.
    + exists [EvPage page]. simpl. split; [reflexivity|].
      apply prefix_cons, prefix_nil.
Qed.

End Stream.

Section TraceFacts.

Implicit Types (pages : list Page) (running : JsMap).

Lemma drawn_traceFrom running idx limit pages :
  drawn (traceFrom running idx limit pages) = pages.
Proof.
  revert running idx. induction pages as [|page rest IH]; intros; simpl; auto.
  by rewrite IH.
Qed.

Lemma updates_traceFrom_length running idx limit pages :
  length (updates (traceFrom running idx limit pages)) = length pages.
Proof.
  revert running idx. induction pages as [|page rest IH]; intros; simpl; auto.
Qed.

Lemma updates_traceFrom_indices running idx limit pages :
  map snd (updates (traceFrom running idx limit pages))
  = map (fun k => idx + Z.of_nat k) (seq 0 (length pages)).
Proof.
  revert running idx. induction pages as [|page rest IH]; intros; simpl; auto.
  f_equal; [lia|]. rewrite IH, <- seq_shift, map_map.
  apply map_ext. intros k. lia.
Qed.

Lemma In_traceFrom running idx limit pages snapshot i :
  In (EvUpdate snapshot i) (traceFrom running idx limit pages) ->
  exists k : nat,
    (k < length pages)%nat /\ i = idx + Z.of_nat k /\
    snapshot = snapshotOf (fold_left mergePage (firstn (S k) pages) running)
                          limit.
Proof.
  revert running idx. induction pages as [|page rest IH]; intros running idx;
    simpl; [tauto|].
  intros [Heq | [Heq | Hin]]; [discriminate | | ].
  - injection Heq as <- <-. exists 0%nat. split_and!; [lia | lia |].
    destruct rest; reflexivity.
  - apply IH in Hin as (k & Hk & -> & ->).
    exists (S k). split_and!; [lia | lia | reflexivity].
Qed.

End TraceFacts.

Lemma traceFrom_lookup (running : JsMap) idx limit (pages : list Page) :
  forall (k : nat) page,
    pages !! k = Some page ->
    traceFrom running idx limit pages !! (k + k)%nat = Some (EvPage page) /\
    traceFrom running idx limit pages !! S (k + k)
    = Some (EvUpdate
              (snapshotOf (fold_left mergePage (firstn (S k) pages) running)
                          limit)
              (idx + Z.of_nat k)).
Proof.
  revert running idx. induction pages as [|p rest IH]; intros running idx k page Hk.
  - discriminate.
  - destruct k as [|k].
    + injection Hk as ->. simpl. split; [reflexivity|].
      destruct rest; simpl; do 2 f_equal; lia.
    + simpl in Hk. rewrite Nat.add_succ_r. simpl.
      destruct (IH (mergePage running p) (idx + 1) k page Hk) as [H1 H2].
      split; [exact H1|]. rewrite H2. do 2 f_equal. lia.
Qed.

(** C1.  When [streamTopCategories] returns from a stream of [n] pages,
    [onUpdate] has been called exactly [n] times, with [pageIndex]
    0, 1, ..., n-1 in this order; the pages were taken in arrival order;
    the events alternate, the call for page [k] returning (position
    [2k+1]) after page [k] was taken (position [2k]) and before page
    [k+1] is (position [2k+2]); and each call acts on the world the
    previous call left. *)
Theorem C1_one_update_per_page {W : Type} (onUpdate : Callback W)
    (pages : list Page) (limit : Z) (w : W) (r : Run W) (totals : JsMap) :
  streamTopCategories (ofList pages) limit onUpdate w = (r, Ok totals) ->
  length (updates (trace r)) = length pages /\
  map snd (updates (trace r)) = map Z.of_nat (seq 0 (length pages)) /\
  drawn (trace r) = pages /\
  length (trace r) = (length pages + length pages)%nat /\
  (forall (k : nat) page,
     pages !! k = Some page ->
     trace r !! (k + k)%nat = Some (EvPage page) /\
     trace r !! S (k + k)
     = Some (EvUpdate (snapshotOf (runningAfter pages (S k)) limit)
                      (Z.of_nat k))) /\
  world r = callAll onUpdate (updates (trace r)) w /\
  totals = runningAfter pages (length pages).
Proof.
  unfold streamTopCategories. intros Hrun.
  apply forAwait_Ok in Hrun as (-> & Htr & Hw). simpl in Htr, Hw.
  rewrite Htr. split_and!.
  - apply updates_traceFrom_length.
  - rewrite updates_traceFrom_indices. apply map_ext. intros; lia.
  - apply drawn_traceFrom.
  - clear. generalize (@nil Entry) 0. induction pages as [|p rest IH];
      intros running idx; simpl; auto.
    rewrite IH. lia.
  - intros k page Hk.
    destruct (traceFrom_lookup [] 0 limit pages k page Hk) as [H1 H2].
    split; [exact H1|]. rewrite H2. reflexivity.
  - exact Hw.
  - rewrite runningAfter_fold, firstn_all. reflexivity.
Qed.

Lemma C1_witness :
  let r := fst (streamTopCategories fetchOrderPages 3 recordCalls []) in
  length (updates (trace r)) = 3%nat /\
  map snd (updates (trace r)) = [0; 1; 2] /\
  map snd (world r) = [0; 1; 2].
Proof.
  pose (run := streamTopCategories fetchOrderPages 3 recordCalls []).
  assert (Hrun : streamTopCategories (ofList (yielded fetchOrderPages)) 3
                   recordCalls []
                 = (fst run, Ok (runningAfter (yielded fetchOrderPages) 3)))
    by reflexivity.
  destruct (C1_one_update_per_page recordCalls (yielded fetchOrderPages) 3 []
              (fst run) _ Hrun) as (Hlen & Hidx & _ & _ & _ & _ & _).
  split; [exact Hlen|]. split; [exact Hidx | reflexivity].
Defined.

(** C4.  For a limit [N >= 0], every snapshot handed to [onUpdate], in a
    run with any outcome, is [topNFromMap] of the running totals after the
    page it belongs to; it has at most [N] entries, and as many entries as
    the running totals have categories when these are fewer than [N]. *)
Theorem C4_snapshot_bounded {W : Type} (onUpdate : Callback W)
    (src : AsyncIterable Page) (N : Z) (w : W)
    (snapshot : list Entry) (i : Z) :
  0 <= N ->
  In (EvUpdate snapshot i)
     (trace (fst (streamTopCategories src N onUpdate w))) ->
  let running := runningAfter (yielded src) (Z.to_nat i + 1) in
  0 <= i /\
  topNFromMap running N = Ok snapshot /\
  Map_wf running /\
  Z.of_nat (length snapshot) <= N /\
  (Z.of_nat (Map_size running) < N -> length snapshot = Map_size running).
Proof.
  intros HN Hin running.
  unfold streamTopCategories in Hin.
  destruct (forAwait_prefix onUpdate N src [] 0 {| world := w; trace := [] |})
    as (tr & Htr & [rest Hpre]).
  rewrite Htr in Hin. simpl in Hin.
  assert (Hin' : In (EvUpdate snapshot i) (traceFrom [] 0 N (yielded src))).
  { rewrite Hpre. apply in_or_app. by left. }
  apply In_traceFrom in Hin' as (k & Hk & -> & Hsnap).
  assert (Hrun : running = fold_left mergePage (firstn (S k) (yielded src)) []).
  { unfold running. rewrite runningAfter_fold. do 2 f_equal. lia. }
  rewrite <- Hrun in Hsnap. subst snapshot.
  split_and!.
  - lia.
  - by apply topNFromMap_nonneg.
  - apply runningAfter_wf.
  - unfold snapshotOf. rewrite length_firstn. lia.
  - intros Hlt. unfold snapshotOf, Map_size in *.
    rewrite length_firstn, toSorted_length. lia.
Qed.

Lemma C4_witness :
  let running := runningAfter (yielded fetchOrderPages) 2 in
  let snapshot := [("tools", 14999); ("books", 4900)] in
  topNFromMap running 2 = Ok snapshot /\
  Z.of_nat (length snapshot) <= 2 /\
  Map_size running = 3%nat.
Proof.
  intros running snapshot.
  assert (HN : 0 <= 2) by lia.
  assert (Hin : In (EvUpdate snapshot 1)
                   (trace (fst (streamTopCategories fetchOrderPages 2
                                  recordCalls [])))).
  { vm_compute. right. right. right. left. reflexivity. }
  destruct (C4_snapshot_bounded recordCalls fetchOrderPages 2 [] snapshot 1
              HN Hin) as (_ & Htop & _ & Hlen & _).
  split; [exact Htop|]. split; [exact Hlen | reflexivity].
Defined.

(** ** Monotone totals *)

Section Monotone.

Implicit Types (a b m : JsMap) (c k : string) (v : Z).

Lemma totalsLe_refl m : totalsLe m m.
Proof.
  intros c. split; [lia|]. intros v Hv. exists v. split; [exact Hv | lia].
Qed.

Lemma totalsLe_trans a b m : totalsLe a b -> totalsLe b m -> totalsLe a m.
Proof.
  intros Hab Hbm c. destruct (Hab c) as [H1 H2], (Hbm c) as [H3 H4].
  split; [lia|]. intros v Hv.
  destruct (H2 v Hv) as (v' & Hv' & Hle).
  destruct (H4 v' Hv') as (v'' & Hv'' & Hle').
  exists v''. split; [exact Hv'' | lia].
Qed.

Lemma addTotal_totalsLe m k v : 0 <= v -> totalsLe m (addTotal m k v).
Proof.
  intros Hv c. unfold totalOf, addTotal.
  destruct (String.string_dec k c) as [-> | Hne].
  - rewrite Map_get_set_eq. simpl. split; [lia|].
    intros v0 Hv0. rewrite Hv0. simpl. eexists; split; [reflexivity | lia].
  - rewrite Map_get_set_ne by done. split; [lia|].
    intros v0 Hv0. exists v0. split; [exact Hv0 | lia].
Qed.

Lemma mergeCategoryTotals_totalsLe a b :
  Forall (fun e : Entry => 0 <= snd e) b -> totalsLe a (mergeCategoryTotals a b).
Proof.
  revert a. induction b as [|[k v] b IH]; intros a Hb.
  - apply totalsLe_refl.
  - apply Forall_cons in Hb as [Hv Hb]. rewrite mergeCategoryTotals_cons.
    eapply totalsLe_trans; [by apply addTotal_totalsLe | by apply IH].
Qed.

Lemma addTotal_nonneg m k v :
  Forall (fun e : Entry => 0 <= snd e) m -> 0 <= v ->
  Forall (fun e : Entry => 0 <= snd e) (addTotal m k v).
Proof.
  intros Hm Hv. apply List.Forall_forall. intros [k' v'] Hin.
  apply In_Map_set in Hin as [[_ ->] | Hin].
  - destruct (Map_get m k) as [v0|] eqn:Hget; simpl; [|lia].
    apply Map_get_In in Hget.
    rewrite List.Forall_forall in Hm. specialize (Hm _ Hget). simpl in Hm. lia.
  - rewrite List.Forall_forall in Hm. by apply Hm.
Qed.

Lemma salesOf_nonneg (page : Page) :
  (forall o it, In o page -> In it (items o) -> 0 <= qty it /\ 0 <= unitPrice it) ->
  Forall (fun s => 0 <= total s) (salesOf page).
Proof.
  intros Hpage. apply List.Forall_forall. intros s Hs.
  unfold salesOf in Hs. apply in_flat_map in Hs as (o & Ho & Hs).
  apply filter_In in Ho as [Ho _].
  apply in_map_iff in Hs as (it & <- & Hit). simpl.
  destruct (Hpage o it Ho Hit). lia.
Qed.

Lemma processPageToSales_nonneg (page : Page) :
  (forall o it, In o page -> In it (items o) -> 0 <= qty it /\ 0 <= unitPrice it) ->
  Forall (fun e : Entry => 0 <= snd e) (processPageToSales page).
Proof.
  intros Hpage. rewrite processPageToSales_fold.
  pose proof (salesOf_nonneg page Hpage) as Hs.
  assert (H : forall (sales : list CategorySale) m,
            Forall (fun s => 0 <= total s) sales ->
            Forall (fun e : Entry => 0 <= snd e) m ->
            Forall (fun e : Entry => 0 <= snd e)
              (fold_left (fun acc s => addTotal acc (sale_category s) (total s))
                         sales m)).
  { induction sales as [|s sales IH]; intros m Hsales Hm; simpl; auto.
    apply Forall_cons in Hsales as [Hs0 Hsales].
    apply IH; [exact Hsales | by apply addTotal_nonneg]. }
  apply H; [exact Hs | constructor].
Qed.

End Monotone.

(** C2.  When no line item has a negative quantity or price, the running
    total of every category after page [k+1] is at least its running total
    after page [k] (an absent category counting as 0), and a category that
    has a total after page [k] still has one after page [k+1]. *)
Theorem C2_running_totals_monotone (pages : list Page) (k : nat) (c : string) :
  nonNegative pages ->
  totalOf (runningAfter pages k) c <= totalOf (runningAfter pages (S k)) c /\
  (forall v, Map_get (runningAfter pages k) c = Some v ->
     exists v', Map_get (runningAfter pages (S k)) c = Some v' /\ v <= v').
Proof.
  intros Hnn.
  enough (H : totalsLe (runningAfter pages k) (runningAfter pages (S k)))
    by apply H.
  destruct (pages !! k) as [page|] eqn:Hk.
  - rewrite (runningAfter_S _ _ _ Hk).
    apply mergeCategoryTotals_totalsLe, processPageToSales_nonneg.
    intros o it Ho Hit. apply (Hnn page o it); auto.
    apply list_elem_of_In. eapply list_elem_of_lookup_2; eauto.
  - apply lookup_ge_None in Hk. rewrite runningAfter_past by done.
    apply totalsLe_refl.
Qed.

Lemma C2_witness :
  totalOf (runningAfter (yielded fetchOrderPages) 1) "food"
  <= totalOf (runningAfter (yielded fetchOrderPages) 2) "food" /\
  totalOf (runningAfter (yielded fetchOrderPages) 1) "food" = 1500 /\
  totalOf (runningAfter (yielded fetchOrderPages) 2) "food" = 3100.
Proof.
  assert (Hnn : nonNegative (yielded fetchOrderPages)).
  { intros page o it Hp Ho Hit. simpl in Hp.
    repeat (destruct Hp as [<- | Hp]; [simpl in Ho;
      repeat (destruct Ho as [<- | Ho]; [simpl in Hit;
        repeat (destruct Hit as [<- | Hit]; [simpl; lia|]); destruct Hit|]);
      destruct Ho|]).
    destruct Hp. }
  split; [|split; reflexivity].
  exact (proj1 (C2_running_totals_monotone (yielded fetchOrderPages) 1 "food" Hnn)).
Defined.

(** ** The broadcaster *)

Section Broadcast.

Implicit Types (st : Server) (i j : WsId) (s todo : list WsId).

Lemma Set_has_In i s : Set_has i s = true <-> In i s.
Proof.
  unfold Set_has. rewrite existsb_exists. split.
  - intros (j & Hj & Heq). apply Nat.eqb_eq in Heq. by subst.
  - intros Hin. exists i. split; [exact Hin | apply Nat.eqb_refl].
Qed.

Lemma Set_has_false i s : Set_has i s = false <-> ~ In i s.
Proof.
  rewrite <- Set_has_In. destruct (Set_has i s); split; try done.
Qed.

Lemma filter_filter_andb {A} (f g : A -> bool) (l : list A) :
  List.filter f (List.filter g l) = List.filter (fun x => g x && f x) l.
Proof.
  induction l as [|x l IH]; simpl; auto.
  destruct (g x); simpl; [destruct (f x)|]; by rewrite IH.
Qed.

Lemma sockets_set_socket_eq i ws st : sockets (set_socket i ws st) i = ws.
Proof. simpl. by rewrite Nat.eqb_refl. Qed.

Lemma sockets_set_socket_ne i j ws st :
  j <> i -> sockets (set_socket i ws st) j = sockets st j.
Proof. intros Hne. simpl. apply Nat.eqb_neq in Hne. by rewrite Hne. Qed.

Lemma ws_send_readyState json ws :
  readyState (fst (ws_send json ws)) = readyState ws.
Proof. unfold ws_send. by destruct (sendThrows ws). Qed.

Lemma ws_send_sendThrows json ws :
  sendThrows (fst (ws_send json ws)) = sendThrows ws.
Proof. unfold ws_send. by destruct (sendThrows ws). Qed.

(** What the loop over the connections [todo] does: it removes the ones
    that are open and raise, hands the frame to [send] of each open one,
    and touches nothing else. *)
Lemma broadcastLoop_spec json todo :
  forall st,
    NoDup todo -> (forall i, In i todo -> In i (clients st)) ->
    clients (broadcastLoop json todo st)
    = List.filter (fun j => negb (Set_has j todo && dropped st j)) (clients st) /\
    (forall i, sockets (broadcastLoop json todo st) i
               = if Set_has i todo && isOpen st i
                 then fst (ws_send json (sockets st i))
                 else sockets st i) /\
    clock (broadcastLoop json todo st) = clock st /\
    timers (broadcastLoop json todo st) = timers st /\
    console (broadcastLoop json todo st) = console st.
Proof.
  induction todo as [|i rest IH]; intros st Hnd Hsub.
  - simpl. split_and!; auto.
    clear. induction (clients st) as [|j l IHl]; simpl; auto. by rewrite <- IHl.
  - apply NoDup_cons in Hnd as [Hi Hnd].
    rewrite list_elem_of_In in Hi.
    assert (Hhas : Set_has i (clients st) = true).
    { apply Set_has_In, Hsub. by left. }
    assert (Hrest : Set_has i rest = false) by by apply Set_has_false.
    simpl. rewrite Hhas.
    destruct (ReadyState_eqb (readyState (sockets st i)) OPEN) eqn:Hopen.
    + destruct (ws_send json (sockets st i)) as [ws' [[]|e]] eqn:Hsend.
      * (* delivered *)
        assert (Hthrows : sendThrows (sockets st i) = false).
        { unfold ws_send in Hsend.
          destruct (sendThrows (sockets st i)); [discriminate | reflexivity]. }
        destruct (IH (set_socket i ws' st) Hnd) as (Hc & Hs & Hk & Ht & Ho).
        { intros j Hj. simpl. apply Hsub. by right. }
        split_and!; auto.
        -- rewrite Hc. simpl. apply filter_ext_in. intros j _.
           unfold dropped, isOpen. simpl.
           destruct (Nat.eqb_spec j i) as [-> | Hne]; simpl.
           ++ rewrite Hrest, Hopen, Hthrows. reflexivity.
           ++ reflexivity.
        -- intros j. etrans; [apply Hs|]. unfold isOpen. simpl.
           destruct (Nat.eqb_spec j i) as [-> | Hne]; simpl.
           ++ rewrite Hrest. simpl. rewrite Hopen, ?Hsend. reflexivity.
           ++ reflexivity.
      * (* [send] raised: the connection is deleted *)
        assert (Hthrows : sendThrows (sockets st i) = true).
        { unfold ws_send in Hsend.
          destruct (sendThrows (sockets st i)); [reflexivity | discriminate]. }
        destruct (IH (set_clients (Set_delete i (clients (set_socket i ws' st)))
                        (set_socket i ws' st)) Hnd)
          as (Hc & Hs & Hk & Ht & Ho).
        { intros j Hj. simpl. unfold Set_delete. apply filter_In. split.
          - apply Hsub. by right.
          - apply negb_true_iff, Nat.eqb_neq. intros ->. contradiction. }
        split_and!; auto.
        -- etrans; [apply Hc|]. simpl. unfold Set_delete.
           rewrite filter_filter_andb.
           apply filter_ext_in. intros j _.
           unfold dropped, isOpen. simpl.
           destruct (Nat.eqb_spec j i) as [-> | Hne]; simpl.
           ++ rewrite Hopen, Hthrows. reflexivity.
           ++ reflexivity.
        -- intros j. etrans; [apply Hs|]. unfold isOpen. simpl.
           destruct (Nat.eqb_spec j i) as [-> | Hne]; simpl.
           ++ rewrite Hrest. simpl. rewrite Hopen, ?Hsend. reflexivity.
           ++ reflexivity.
    + (* not open: skipped *)
      destruct (IH st Hnd) as (Hc & Hs & Hk & Ht & Ho).
      { intros j Hj. apply Hsub. by right. }
      split_and!; auto.
      * rewrite Hc. apply filter_ext_in. intros j _.
        unfold dropped, isOpen.
        destruct (Nat.eqb_spec j i) as [-> | Hne]; simpl.
        -- rewrite Hopen. simpl. by rewrite andb_false_r.
        -- reflexivity.
      * intros j. rewrite Hs. unfold isOpen.
        destruct (Nat.eqb_spec j i) as [-> | Hne]; simpl.
        -- rewrite Hopen, Hrest. reflexivity.
        -- reflexivity.
Qed.

Lemma broadcast_spec json st :
  NoDup (clients st) ->
  clients (broadcast json st)
  = List.filter (fun j => negb (dropped st j)) (clients st) /\
  (forall i, sockets (broadcast json st) i
             = if Set_has i (clients st) && isOpen st i
               then fst (ws_send json (sockets st i))
               else sockets st i) /\
  clock (broadcast json st) = clock st /\
  timers (broadcast json st) = timers st /\
  console (broadcast json st) = console st.
Proof.
  intros Hnd. unfold broadcast.
  destruct (broadcastLoop_spec json (clients st) st Hnd (fun i H => H))
    as (Hc & Hs & Hk & Ht & Ho).
  split_and!; auto. rewrite Hc. apply filter_ext_in. intros j Hj.
  apply Set_has_In in Hj. by rewrite Hj.
Qed.

Lemma broadcast_NoDup json st :
  NoDup (clients st) -> NoDup (clients (broadcast json st)).
Proof.
  intros Hnd. destruct (broadcast_spec json st Hnd) as (-> & _).
  apply NoDup_ListNoDup. apply List.NoDup_filter. by apply NoDup_ListNoDup.
Qed.

(** A connection outside the set is not touched and stays outside. *)
Lemma broadcast_absent json st i :
  NoDup (clients st) -> ~ In i (clients st) ->
  sockets (broadcast json st) i = sockets st i /\
  ~ In i (clients (broadcast json st)).
Proof.
  intros Hnd Hout. destruct (broadcast_spec json st Hnd) as (Hc & Hs & _).
  split.
  - rewrite Hs. apply Set_has_false in Hout. by rewrite Hout.
  - rewrite Hc. intros Hin. apply filter_In in Hin as [Hin _]. contradiction.
Qed.

Lemma broadcastAll_absent msgs st i :
  NoDup (clients st) -> ~ In i (clients st) ->
  sockets (broadcastAll msgs st) i = sockets st i /\
  ~ In i (clients (broadcastAll msgs st)).
Proof.
  revert st. induction msgs as [|m msgs IH]; intros st Hnd Hout; [done|].
  unfold broadcastAll. simpl. fold (broadcastAll msgs (broadcast m st)).
  destruct (broadcast_absent m st i Hnd Hout) as [Hs Hc].
  destruct (IH (broadcast m st) (broadcast_NoDup m st Hnd) Hc) as [Hs' Hc'].
  split; [by rewrite Hs' | exact Hc'].
Qed.

(** A healthy subscriber receives the frame and stays healthy. *)
Lemma broadcast_healthy json st i :
  NoDup (clients st) -> healthy st i ->
  healthy (broadcast json st) i /\
  received (sockets (broadcast json st) i)
  = received (sockets st i) ++ [json].
Proof.
  intros Hnd (Hin & Hopen & Hok).
  destruct (broadcast_spec json st Hnd) as (Hc & Hs & _).
  assert (Hsock : sockets (broadcast json st) i
                  = fst (ws_send json (sockets st i))).
  { rewrite Hs. apply Set_has_In in Hin. by rewrite Hin, Hopen. }
  split; [split_and!|].
  - rewrite Hc. apply filter_In. split; [exact Hin|].
    unfold dropped. by rewrite Hok, andb_false_r.
  - unfold isOpen in *. by rewrite Hsock, ws_send_readyState.
  - by rewrite Hsock, ws_send_sendThrows.
  - rewrite Hsock. unfold ws_send. by rewrite Hok.
Qed.

End Broadcast.

(** C9.  A broadcast to three open subscribers of which exactly one
    raises on [send]: both others receive the frame and stay in the set;
    the failing one receives nothing, is removed from the set, and no
    later broadcast calls its [send]. *)
Theorem C9_subscriber_isolation (st : Server) (a b c : WsId)
    (msg : WireMessage) :
  clients st = [a; b; c] ->
  NoDup [a; b; c] ->
  (forall i, In i [a; b; c] -> isOpen st i = true) ->
  length (List.filter (fun i => sendThrows (sockets st i)) [a; b; c]) = 1%nat ->
  clients (broadcast msg st)
  = List.filter (fun i => negb (sendThrows (sockets st i))) [a; b; c] /\
  length (clients (broadcast msg st)) = 2%nat /\
  (forall i, In i [a; b; c] -> sendThrows (sockets st i) = false ->
     In i (clients (broadcast msg st)) /\
     received (sockets (broadcast msg st) i) = received (sockets st i) ++ [msg]) /\
  (forall i, In i [a; b; c] -> sendThrows (sockets st i) = true ->
     ~ In i (clients (broadcast msg st)) /\
     received (sockets (broadcast msg st) i) = received (sockets st i) /\
     forall later,
       sockets (broadcastAll later (broadcast msg st)) i
       = sockets (broadcast msg st) i /\
       ~ In i (clients (broadcastAll later (broadcast msg st)))).
Proof.
  intros Hcl Hnd Hopen Hone.
  assert (Hnd' : NoDup (clients st)) by by rewrite Hcl.
  destruct (broadcast_spec msg st Hnd') as (Hc & Hs & _).
  assert (Hc' : clients (broadcast msg st)
                = List.filter (fun i => negb (sendThrows (sockets st i))) [a; b; c]).
  { rewrite Hc, Hcl. apply filter_ext_in. intros i Hi.
    unfold dropped. by rewrite (Hopen i Hi). }
  split_and!.
  - exact Hc'.
  - rewrite Hc'. clear -Hone. simpl in *.
    destruct (sendThrows (sockets st a)), (sendThrows (sockets st b)),
      (sendThrows (sockets st c)); simpl in *; lia.
  - intros i Hi Hok.
    assert (Hh : healthy st i).
    { split_and!; [by rewrite Hcl | by apply Hopen | exact Hok]. }
    destruct (broadcast_healthy msg st i Hnd' Hh) as [(Hin & _) Hrec].
    split; [exact Hin | exact Hrec].
  - intros i Hi Hthrows.
    assert (Hout : ~ In i (clients (broadcast msg st))).
    { rewrite Hc'. intros Hin. apply filter_In in Hin as [_ Hin].
      by rewrite Hthrows in Hin. }
    split_and!.
    + exact Hout.
    + rewrite Hs. rewrite <- Hcl in Hi. apply Set_has_In in Hi.
      rewrite Hi. rewrite Hcl in Hi. apply Set_has_In in Hi.
      rewrite (Hopen i Hi). simpl. unfold ws_send. by rewrite Hthrows.
    + intros later. apply broadcastAll_absent; [|exact Hout].
      by apply broadcast_NoDup.
Qed.

Lemma C9_witness :
  let st := {| clients := [1; 2; 3]%nat;
               sockets := fun i => {| readyState := OPEN;
                                      sendThrows := Nat.eqb i 2;
                                      sendCalls := 0;
                                      received := [] |};
               clock := 0; timers := []; console := [] |} in
  let st' := broadcast (Hello "update") st in
  clients st' = [1; 3]%nat /\
  received (sockets st' 1%nat) = [Hello "update"] /\
  received (sockets st' 2%nat) = [] /\
  received (sockets st' 3%nat) = [Hello "update"] /\
  received (sockets (broadcast (Hello "next") st') 2%nat) = [].
Proof.
  intros st st'.
  assert (Hcl : clients st = [1; 2; 3]%nat) by reflexivity.
  assert (Hnd : NoDup [1; 2; 3]%nat)
    by (apply (bool_decide_unpack _); vm_compute; exact I).
  assert (Hopen : forall i, In i [1; 2; 3]%nat -> isOpen st i = true)
    by (intros i _; reflexivity).
  assert (Hone : length (List.filter (fun i => sendThrows (sockets st i))
                           [1; 2; 3]%nat) = 1%nat) by reflexivity.
  destruct (C9_subscriber_isolation st 1%nat 2%nat 3%nat (Hello "update")
              Hcl Hnd Hopen Hone) as (Hc & _ & Hok & Hbad).
  split; [exact Hc|].
  split; [apply (Hok 1%nat); [simpl; tauto | reflexivity]|].
  split; [apply (Hbad 2%nat); [simpl; tauto | reflexivity]|].
  split; [apply (Hok 3%nat); [simpl; tauto | reflexivity]|].
  reflexivity.
Defined.

(** ** [safeStream] and the timers *)

Section SafeStream.

Implicit Types (st : Server) (i : WsId) (pages : list Page).

Lemma broadcastLoop_frame json (todo : list WsId) st :
  clock (broadcastLoop json todo st) = clock st /\
  timers (broadcastLoop json todo st) = timers st.
Proof.
  revert st. induction todo as [|j rest IH]; intros st; simpl; [done|].
  destruct (Set_has j (clients st)); [|apply IH].
  destruct (ReadyState_eqb _ OPEN); [|apply IH].
  destruct (ws_send json (sockets st j)) as [ws' [[]|e]].
  - apply (IH (set_socket j ws' st)).
  - apply (IH (set_clients (Set_delete j (clients st)) (set_socket j ws' st))).
Qed.

Lemma onSnapshot_frame snapshot idx st :
  snd (onSnapshot snapshot idx st) = Ok tt /\
  clock (fst (onSnapshot snapshot idx st)) = clock st /\
  timers (fst (onSnapshot snapshot idx st)) = timers st.
Proof.
  unfold onSnapshot, broadcast. simpl. split; [reflexivity|].
  apply (broadcastLoop_frame _ _ (console_log _ st)).
Qed.

(** A run with [onSnapshot] as callback moves neither the clock nor the
    timers. *)
Lemma forAwait_onSnapshot_frame (src : AsyncIterable Page) limit :
  forall running idx (r : Run Server),
    clock (world (fst (forAwait src limit onSnapshot running idx r)))
    = clock (world r) /\
    timers (world (fst (forAwait src limit onSnapshot running idx r)))
    = timers (world r).
Proof.
  induction src as [| e | page rest IH]; intros running idx r; simpl; auto.
  destruct (topNFromMap _ limit) as [snapshot | e]; simpl; auto.
  match goal with
  | |- context [forAwait rest limit onSnapshot ?run ?ix ?rr] =>
      destruct (IH run ix rr) as [-> ->]
  end.
  simpl. unfold broadcast.
  apply (broadcastLoop_frame _ _ (console_log _ (world r))).
Qed.

(** Whatever the outcome of the run, [safeStream] ends by setting one
    timer of 5000 ms: [RestartCycle] after a run that returned, [Retry]
    after one that raised. *)
Lemma safeStreamFrom_timers (src : AsyncIterable Page) st :
  timers (safeStreamFrom src st)
  = timers st ++
    [(clock st + 5000,
      match snd (streamTopCategories src 3 onSnapshot
                   (console_log LogStarting st)) with
      | Ok _ => RestartCycle
      | Throw _ => Retry
      end)].
Proof.
  unfold safeStreamFrom, streamTopCategories.
  destruct (forAwait_onSnapshot_frame src 3 [] 0
              {| world := console_log LogStarting st; trace := [] |})
    as [Hk Ht].
  destruct (forAwait src 3 onSnapshot [] 0 _) as [r [totals | e]];
    simpl in *; by rewrite Hk, Ht.
Qed.

(** A healthy subscriber receives one update per page, numbered from the
    loop's [pageIndex] on, and the run returns. *)
Lemma forAwait_onSnapshot_healthy i limit pages :
  0 <= limit ->
  forall running idx (r : Run Server),
    NoDup (clients (world r)) -> healthy (world r) i ->
    exists r' totals,
      forAwait (ofList pages) limit onSnapshot running idx r = (r', Ok totals) /\
      NoDup (clients (world r')) /\ healthy (world r') i /\
      pageIndices (received (sockets (world r') i))
      = pageIndices (received (sockets (world r) i))
        ++ map (fun k => idx + Z.of_nat k) (seq 0 (length pages)).
Proof.
  intros Hlimit. induction pages as [|page rest IH]; intros running idx r Hnd Hh.
  - exists r, running. simpl. split_and!; auto. by rewrite app_nil_r.
  - simpl. rewrite topNFromMap_nonneg by done.
    set (snapshot := firstn _ _).
    unfold onSnapshot at 1.
    set (update := TopCategories _ idx _).
    set (st := console_log _ (world r)).
    assert (Hnd' : NoDup (clients st)) by exact Hnd.
    assert (Hh' : healthy st i) by exact Hh.
    destruct (broadcast_healthy update st i Hnd' Hh') as [Hh2 Hrec].
    pose proof (broadcast_NoDup update st Hnd') as Hnd2.
    destruct (IH (mergeCategoryTotals running (processPageToSales page))
                (idx + 1)
                {| world := broadcast update st;
                   trace := (trace r ++ [EvPage page])
                            ++ [EvUpdate snapshot idx] |} Hnd2 Hh2)
      as (r' & totals & Hrun & Hnd3 & Hh3 & Hidx).
    exists r', totals. split_and!; auto.
    rewrite Hidx. simpl. rewrite Hrec.
    unfold pageIndices at 1. rewrite flat_map_app. simpl.
    fold (pageIndices (received (sockets st i))).
    rewrite <- app_assoc. f_equal. simpl. f_equal; [lia|].
    rewrite <- seq_shift, map_map. apply map_ext. intros; lia.
Qed.

Lemma safeStreamFrom_healthy i pages st :
  NoDup (clients st) -> healthy st i ->
  NoDup (clients (safeStreamFrom (ofList pages) st)) /\
  healthy (safeStreamFrom (ofList pages) st) i /\
  pageIndices (received (sockets (safeStreamFrom (ofList pages) st) i))
  = pageIndices (received (sockets st i))
    ++ map Z.of_nat (seq 0 (length pages)) /\
  clock (safeStreamFrom (ofList pages) st) = clock st /\
  timers (safeStreamFrom (ofList pages) st)
  = timers st ++ [(clock st + 5000, RestartCycle)] /\
  last (console (safeStreamFrom (ofList pages) st)) = Some LogCompleted.
Proof.
  intros Hnd Hh.
  pose proof (safeStreamFrom_timers (ofList pages) st) as Ht.
  unfold safeStreamFrom, streamTopCategories in *.
  destruct (forAwait_onSnapshot_frame (ofList pages) 3 [] 0
              {| world := console_log LogStarting st; trace := [] |})
    as [Hk _].
  destruct (forAwait_onSnapshot_healthy i 3 pages ltac:(lia) [] 0
              {| world := console_log LogStarting st; trace := [] |} Hnd Hh)
    as (r' & totals & Hrun & Hnd' & Hh' & Hidx).
  rewrite Hrun in *.
  split_and!.
  - exact Hnd'.
  - exact Hh'.
  - etrans; [exact Hidx|]. reflexivity.
  - exact Hk.
  - exact Ht.
  - apply last_snoc.
Qed.

Lemma Sorted_app_r {A} (R : A -> A -> Prop) (l1 l2 : list A) :
  Sorted R (l1 ++ l2) -> Sorted R l2.
Proof.
  induction l1 as [|x l1 IH]; simpl; auto.
  intros Hs. apply IH. by apply Sorted_inv in Hs as [Hs _].
Qed.

End SafeStream.

Lemma fetchOrderPages_finite : fetchOrderPages = ofList (yielded fetchOrderPages).
Proof. reflexivity. Qed.

(** [safeStream] does not itself move the clock of the model. *)
Lemma safeStreamFrom_clock (src : AsyncIterable Page) (st : Server) :
  clock (safeStreamFrom src st) = clock st.
Proof.
  unfold safeStreamFrom, streamTopCategories.
  destruct (forAwait_onSnapshot_frame src 3 [] 0
              {| world := console_log LogStarting st; trace := [] |})
    as [Hk _].
  destruct (forAwait src 3 onSnapshot [] 0 _) as [r [totals | e]]; exact Hk.
Qed.

(** C10.  [safeStream] sets a timer of 5000 ms, counted from the moment
    it sets it, whatever the outcome of the run, and the one it sets after
    a run that returned starts the stream anew, not before these 5000 ms
    have passed: a subscriber that stays healthy receives [pageIndex]
    0, 1, 2 in the first cycle and 0, 1, 2 again in the next, so the
    indices it receives are not increasing.  All times are relative to
    the clock reading at the end of the run that sets the timer; how long
    a run takes is not stated. *)
Theorem C10_restart_after_success (st : Server) (i : WsId) :
  NoDup (clients st) -> healthy st i -> timers st = [] ->
  (forall src,
     timers (safeStreamFrom src st)
     = timers st ++
       [(clock (safeStreamFrom src st) + 5000,
         match snd (streamTopCategories src 3 onSnapshot
                      (console_log LogStarting st)) with
         | Ok _ => RestartCycle
         | Throw _ => Retry
         end)]) /\
  last (console (safeStream st)) = Some LogCompleted /\
  timers (safeStream st) = [(clock (safeStream st) + 5000, RestartCycle)] /\
  pageIndices (received (sockets (safeStream st) i))
  = pageIndices (received (sockets st i)) ++ [0; 1; 2] /\
  exists st2,
    fireTimer (safeStream st) = Some st2 /\
    clock (safeStream st) + 5000 <= clock st2 /\
    timers st2 = [(clock st2 + 5000, RestartCycle)] /\
    pageIndices (received (sockets st2 i))
    = pageIndices (received (sockets st i)) ++ [0; 1; 2; 0; 1; 2] /\
    ~ Sorted Z.le (pageIndices (received (sockets st2 i))).
Proof.
  intros Hnd Hh Hnone.
  split.
  { intros src. rewrite safeStreamFrom_clock. apply safeStreamFrom_timers. }
  unfold safeStream. rewrite fetchOrderPages_finite.
  set (pages := yielded fetchOrderPages).
  destruct (safeStreamFrom_healthy i pages st Hnd Hh)
    as (Hnd1 & Hh1 & Hidx1 & Hk1 & Ht1 & Hlog1).
  rewrite Hnone, app_nil_l in Ht1.
  split_and!; [exact Hlog1 | by rewrite Hk1 | exact Hidx1 |].
  set (st1 := safeStreamFrom (ofList pages) st) in *.
  set (st1' := console_log LogRestarting
                 {| clients := clients st1; sockets := sockets st1;
                    clock := clock st + 5000; timers := [];
                    console := console st1 |}).
  exists (safeStreamFrom (ofList pages) st1').
  destruct (safeStreamFrom_healthy i pages st1' Hnd1 Hh1)
    as (Hnd2 & Hh2 & Hidx2 & Hk2 & Ht2 & _).
  assert (Hall : pageIndices
                   (received (sockets (safeStreamFrom (ofList pages) st1') i))
                 = pageIndices (received (sockets st i)) ++ [0; 1; 2; 0; 1; 2]).
  { rewrite Hidx2. change (sockets st1' i) with (sockets st1 i).
    rewrite Hidx1, <- app_assoc. reflexivity. }
  split_and!.
  - unfold fireTimer. rewrite Ht1. reflexivity.
  - rewrite Hk1, Hk2. change (clock st1') with (clock st + 5000). lia.
  - rewrite Hk2. exact Ht2.
  - exact Hall.
  - rewrite Hall. intros Hs. apply Sorted_app_r in Hs.
    do 2 apply Sorted_inv in Hs as [Hs _].
    apply Sorted_inv in Hs as [_ Hhd]. apply HdRel_inv in Hhd. lia.
Qed.

Lemma C10_witness :
  let st := {| clients := [7]%nat;
               sockets := fun _ => {| readyState := OPEN; sendThrows := false;
                                      sendCalls := 0; received := [] |};
               clock := 0; timers := []; console := [] |} in
  timers (safeStream st) = [(clock (safeStream st) + 5000, RestartCycle)] /\
  pageIndices (received (sockets (safeStream st) 7%nat)) = [0; 1; 2] /\
  exists st2,
    fireTimer (safeStream st) = Some st2 /\
    pageIndices (received (sockets st2 7%nat)) = [0; 1; 2; 0; 1; 2].
Proof.
  intros st.
  assert (Hnd : NoDup (clients st))
    by (apply (bool_decide_unpack _); vm_compute; exact I).
  assert (Hh : healthy st 7%nat).
  { split; [simpl; tauto | split; reflexivity]. }
  assert (Hnone : timers st = []) by reflexivity.
  destruct (C10_restart_after_success st 7%nat Hnd Hh Hnone)
    as (_ & _ & Ht & Hidx & st2 & Hfire & _ & _ & Hidx2 & _).
  split; [exact Ht|]. split; [exact Hidx|].
  exists st2. split; [exact Hfire | exact Hidx2].
Defined.

(** ** The helpers over the object store *)

Section StoreFacts.

Implicit Types (h : gmap nat Store.obj) (l r : nat).

Lemma bind_Ok {A B} (m : Store.M A) (k : A -> Store.M B) h h' a :
  m h = (h', Ok a) -> Store.bind m k h = k a h'.
Proof. unfold Store.bind. by intros ->. Qed.

Lemma load_Some h l o : h !! l = Some o -> Store.load l h = (h, Ok o).
Proof. unfold Store.load. by intros ->. Qed.

Lemma loadMap_Some h l m :
  h !! l = Some (Store.OMap m) -> Store.loadMap l h = (h, Ok m).
Proof.
  intros H. unfold Store.loadMap.
  by rewrite (bind_Ok _ _ _ _ _ (load_Some _ _ _ H)).
Qed.

Lemma loadArray_Some h l ls :
  h !! l = Some (Store.OArray ls) -> Store.loadArray l h = (h, Ok ls).
Proof.
  intros H. unfold Store.loadArray.
  by rewrite (bind_Ok _ _ _ _ _ (load_Some _ _ _ H)).
Qed.

Lemma loadItem_Some h l it :
  h !! l = Some (Store.OItem it) -> Store.loadItem l h = (h, Ok it).
Proof.
  intros H. unfold Store.loadItem.
  by rewrite (bind_Ok _ _ _ _ _ (load_Some _ _ _ H)).
Qed.

Lemma loadSale_Some h l s :
  h !! l = Some (Store.OSale s) -> Store.loadSale l h = (h, Ok s).
Proof.
  intros H. unfold Store.loadSale.
  by rewrite (bind_Ok _ _ _ _ _ (load_Some _ _ _ H)).
Qed.

Lemma loadOrder_Some h l oid cid created st its :
  h !! l = Some (Store.OOrder oid cid created st its) ->
  Store.loadOrder l h = (h, Ok (st, its)).
Proof.
  intros H. unfold Store.loadOrder.
  by rewrite (bind_Ok _ _ _ _ _ (load_Some _ _ _ H)).
Qed.

Lemma fresh_None h : h !! fresh (dom h) = None.
Proof. apply not_elem_of_dom, is_fresh. Qed.

Lemma alloc_run h o :
  Store.alloc o h = (<[fresh (dom h) := o]> h, Ok (fresh (dom h))).
Proof. reflexivity. Qed.

Lemma alloc_extends h o : h ⊆ <[fresh (dom h) := o]> h.
Proof. apply insert_subseteq, fresh_None. Qed.

(** The reduction of [mergeCategoryTotals] and of [processPageToSales]
    writes to the accumulator only. *)
Lemma Map_add_at_run h r m k v :
  h !! r = Some (Store.OMap m) ->
  Store.bind (Store.Map_get_at r k) (fun old => Store.Map_set_at r k ((old ?? 0) + v)) h
  = (<[r := Store.OMap (addTotal m k v)]> h, Ok r).
Proof.
  intros Hr. unfold Store.Map_get_at, Store.Map_set_at.
  rewrite (bind_Ok _ _ _ _ _ (bind_Ok _ _ _ _ _ (loadMap_Some _ _ _ Hr))).
  unfold Store.ret at 1.
  rewrite (bind_Ok _ _ _ _ _ (loadMap_Some _ _ _ Hr)). reflexivity.
Qed.

Lemma reduce_entries_run (entries : JsMap) :
  forall h r m,
    h !! r = Some (Store.OMap m) ->
    Store.reduceM (fun result '(category, total) =>
               Store.bind (Store.Map_get_at result category)
                    (fun old => Store.Map_set_at result category ((old ?? 0) + total)))
            entries r h
    = (<[r := Store.OMap (mergeCategoryTotals m entries)]> h, Ok r).
Proof.
  induction entries as [|[k v] entries IH]; intros h r m Hr; simpl.
  - unfold Store.ret. by rewrite insert_id.
  - rewrite (bind_Ok _ _ _ _ _ (Map_add_at_run h r m k v Hr)).
    rewrite (IH _ r (addTotal m k v)) by apply lookup_insert_eq.
    by rewrite insert_insert_eq.
Qed.

Lemma mergeCategoryTotals_run h a b ma mb :
  h !! a = Some (Store.OMap ma) -> h !! b = Some (Store.OMap mb) ->
  Store.mergeCategoryTotals a b h
  = (<[fresh (dom h) := Store.OMap (mergeCategoryTotals ma mb)]> h,
     Ok (fresh (dom h))).
Proof.
  intros Ha Hb. unfold Store.mergeCategoryTotals.
  rewrite (bind_Ok _ _ _ _ _ (loadMap_Some _ _ _ Ha)).
  rewrite (bind_Ok _ _ _ _ _ (alloc_run _ _)).
  assert (Hb' : <[fresh (dom h) := Store.OMap ma]> h !! b = Some (Store.OMap mb)).
  { eapply lookup_weaken; [exact Hb | apply alloc_extends]. }
  rewrite (bind_Ok _ _ _ _ _ (loadMap_Some _ _ _ Hb')).
  rewrite (reduce_entries_run mb _ _ ma) by apply lookup_insert_eq.
  by rewrite insert_insert_eq.
Qed.

Lemma holds_items_weaken h h' l its :
  h ⊆ h' -> Store.holds_items h l its -> Store.holds_items h' l its.
Proof.
  intros Hsub (ls & Hl & Hall). exists ls. split.
  - eapply lookup_weaken; eauto.
  - eapply Forall2_impl; [exact Hall|]. intros l0 it H0. simpl in *.
    eapply lookup_weaken; eauto.
Qed.

Lemma holds_order_weaken h h' l o :
  h ⊆ h' -> Store.holds_order h l o -> Store.holds_order h' l o.
Proof.
  intros Hsub (il & Hl & Hits). exists il. split.
  - eapply lookup_weaken; eauto.
  - eapply holds_items_weaken; eauto.
Qed.

Lemma holds_page_weaken h h' l pg :
  h ⊆ h' -> Store.holds_page h l pg -> Store.holds_page h' l pg.
Proof.
  intros Hsub (ls & Hl & Hall). exists ls. split.
  - eapply lookup_weaken; eauto.
  - eapply Forall2_impl; [exact Hall|]. intros l0 o H0.
    eapply holds_order_weaken; eauto.
Qed.

(** [filter] reads the orders and keeps the paid ones. *)
Lemma filter_paid_run h (ls : list nat) (pg : Page) :
  Forall2 (Store.holds_order h) ls pg ->
  exists kept,
    Store.filterM
      (fun o => Store.bind (Store.loadOrder o)
                  (fun x => match x with
                            | (st, _) => Store.ret (Status_eqb st paid)
                            end)) ls h
    = (h, Ok kept) /\
    Forall2 (Store.holds_order h) kept
            (List.filter (fun o => Status_eqb (status o) paid) pg).
Proof.
  induction 1 as [|l o ls pg Ho Hall (kept & Hrun & Hkept)].
  - exists []. split; [reflexivity | constructor].
  - destruct Ho as (il & Hl & Hits).
    exists (if Status_eqb (status o) paid then l :: kept else kept). split.
    + simpl.
      rewrite (bind_Ok _ _ _ _ _
                 (bind_Ok _ _ _ _ _ (loadOrder_Some _ _ _ _ _ _ _ Hl))).
      unfold Store.ret at 1.
      rewrite (bind_Ok _ _ _ _ _ Hrun). reflexivity.
    + simpl. destruct (Status_eqb (status o) paid); [|exact Hkept].
      constructor; [|exact Hkept]. exists il. split; assumption.
Qed.

(** The inner [map] allocates one sale per line item. *)
Lemma map_sales_run (lines : list nat) (its : list LineItem) :
  forall h,
    Forall2 (fun l it => h !! l = Some (Store.OItem it)) lines its ->
    exists h' sales,
      Store.mapM
        (fun it => Store.bind (Store.loadItem it)
           (fun li => Store.alloc
                        (Store.OSale {| sale_category := category li;
                                        total := qty li * unitPrice li |})))
        lines h
      = (h', Ok sales) /\
      h ⊆ h' /\
      Forall2 (fun l s => h' !! l = Some (Store.OSale s)) sales
              (map (fun it => {| sale_category := category it;
                                 total := qty it * unitPrice it |}) its).
Proof.
  revert its. induction lines as [|l lines IH]; intros its h Hall.
  - apply Forall2_nil_inv_l in Hall as ->.
    exists h, []. split_and!; [reflexivity | reflexivity | constructor].
  - apply Forall2_cons_inv_l in Hall as (it & its' & Hl & Hall & ->).
    set (sale := {| sale_category := category it;
                    total := qty it * unitPrice it |}).
    set (h1 := <[fresh (dom h) := Store.OSale sale]> h).
    assert (Hsub1 : h ⊆ h1) by apply alloc_extends.
    destruct (IH its' h1) as (h' & sales & Hrun & Hsub & Hsales).
    { eapply Forall2_impl; [exact Hall|]. intros l0 it0 H0. simpl in *.
      eapply lookup_weaken; eauto. }
    exists h', (fresh (dom h) :: sales). split_and!.
    + simpl.
      rewrite (bind_Ok _ _ _ _ _
                 (bind_Ok _ _ _ _ _ (loadItem_Some _ _ _ Hl))).
      rewrite (bind_Ok _ _ _ _ _ Hrun). reflexivity.
    + etrans; eauto.
    + simpl. constructor; [|exact Hsales].
      eapply lookup_weaken; [|exact Hsub]. apply lookup_insert_eq.
Qed.

(** [flatMap] allocates the sales of the kept orders, order by order. *)
Lemma flat_sales_run (kept : list nat) (os : list Order) :
  forall h,
    Forall2 (Store.holds_order h) kept os ->
    exists h' parts,
      Store.mapM
        (fun o =>
           Store.bind (Store.loadOrder o)
             (fun x => match x with
                | (_, its) =>
                  Store.bind (Store.loadArray its) (fun lines =>
                  Store.bind
                    (Store.mapM
                       (fun it => Store.bind (Store.loadItem it)
                          (fun li => Store.alloc
                             (Store.OSale
                                {| sale_category := category li;
                                   total := qty li * unitPrice li |})))
                       lines) (fun sales =>
                  Store.bind (Store.alloc (Store.OArray sales)) (fun _ =>
                  Store.ret sales)))
                end)) kept h
      = (h', Ok parts) /\
      h ⊆ h' /\
      Forall2 (fun l s => h' !! l = Some (Store.OSale s)) (concat parts)
              (flat_map
                 (fun o => map (fun it => {| sale_category := category it;
                                             total := qty it * unitPrice it |})
                               (items o)) os).
Proof.
  revert os. induction kept as [|l kept IH]; intros os h Hall.
  - apply Forall2_nil_inv_l in Hall as ->.
    exists h, []. split_and!; [reflexivity | reflexivity | constructor].
  - apply Forall2_cons_inv_l in Hall as (o & os' & Ho & Hall & ->).
    destruct Ho as (il & Hl & lines & Hil & Hlines).
    destruct (map_sales_run lines (items o) h Hlines)
      as (h1 & sales & Hrun1 & Hsub1 & Hsales).
    set (h2 := <[fresh (dom h1) := Store.OArray sales]> h1).
    assert (Hsub2 : h1 ⊆ h2) by apply alloc_extends.
    assert (Hsub : h ⊆ h2) by (etrans; eauto).
    destruct (IH os' h2) as (h' & parts & Hrun & Hsub' & Hparts).
    { eapply Forall2_impl; [exact Hall|]. intros l0 o0 H0.
      eapply holds_order_weaken; eauto. }
    exists h', (sales :: parts). split_and!.
    + simpl.
      assert (Hstep :
        Store.bind (Store.loadOrder l)
          (fun x => match x with
             | (_, its) =>
               Store.bind (Store.loadArray its) (fun lines =>
               Store.bind
                 (Store.mapM
                    (fun it => Store.bind (Store.loadItem it)
                       (fun li => Store.alloc
                          (Store.OSale
                             {| sale_category := category li;
                                total := qty li * unitPrice li |})))
                    lines) (fun sales =>
               Store.bind (Store.alloc (Store.OArray sales)) (fun _ =>
               Store.ret sales)))
             end) h = (h2, Ok sales)).
      { rewrite (bind_Ok _ _ _ _ _ (loadOrder_Some _ _ _ _ _ _ _ Hl)).
        rewrite (bind_Ok _ _ _ _ _ (loadArray_Some _ _ _ Hil)).
        rewrite (bind_Ok _ _ _ _ _ Hrun1). reflexivity. }
      rewrite (bind_Ok _ _ _ _ _ Hstep).
      rewrite (bind_Ok _ _ _ _ _ Hrun). reflexivity.
    + etrans; eauto.
    + simpl. apply Forall2_app; [|exact Hparts].
      eapply Forall2_impl; [exact Hsales|]. intros l0 s0 H0. simpl in *.
      eapply lookup_weaken; [exact H0|]. etrans; eauto.
Qed.

(** The final [reduce] reads the sales and writes the accumulator. *)
Lemma reduce_sales_run (locs : list nat) (ss : list CategorySale) :
  forall h acc m,
    h !! acc = Some (Store.OMap m) ->
    Forall2 (fun l s => h !! l = Some (Store.OSale s)) locs ss ->
    Store.reduceM
      (fun acc s =>
         Store.bind (Store.loadSale s) (fun sale =>
         Store.bind (Store.Map_get_at acc (sale_category sale)) (fun old =>
         Store.Map_set_at acc (sale_category sale) ((old ?? 0) + total sale))))
      locs acc h
    = (<[acc := Store.OMap
                  (fold_left (fun a s => addTotal a (sale_category s) (total s))
                             ss m)]> h,
       Ok acc).
Proof.
  revert ss. induction locs as [|l locs IH]; intros ss h acc m Hacc Hall.
  - apply Forall2_nil_inv_l in Hall as ->. simpl. unfold Store.ret.
    by rewrite insert_id.
  - apply Forall2_cons_inv_l in Hall as (s & ss' & Hl & Hall & ->).
    simpl.
    assert (Hstep :
      Store.bind (Store.loadSale l) (fun sale =>
        Store.bind (Store.Map_get_at acc (sale_category sale)) (fun old =>
        Store.Map_set_at acc (sale_category sale) ((old ?? 0) + total sale))) h
      = (<[acc := Store.OMap (addTotal m (sale_category s) (total s))]> h,
         Ok acc)).
    { rewrite (bind_Ok _ _ _ _ _ (loadSale_Some _ _ _ Hl)).
      by apply Map_add_at_run. }
    rewrite (bind_Ok _ _ _ _ _ Hstep).
    rewrite (IH ss' _ acc (addTotal m (sale_category s) (total s))).
    + by rewrite insert_insert_eq.
    + apply lookup_insert_eq.
    + eapply Forall2_impl; [exact Hall|]. intros l0 s0 H0. simpl in *.
      rewrite lookup_insert_ne; [exact H0|]. intros ->. congruence.
Qed.

(** [processPageToSales] on a page held in the store: it returns a new
    map holding the totals of the page, and every object that was in the
    store is still there, unchanged. *)
Lemma processPageToSales_run h p (pg : Page) :
  Store.holds_page h p pg ->
  exists r h',
    Store.processPageToSales p h = (h', Ok r) /\
    h !! r = None /\
    h ⊆ h' /\
    h' !! r = Some (Store.OMap (processPageToSales pg)).
Proof.
  intros (ls & Hp & Hall).
  destruct (filter_paid_run h ls pg Hall) as (kept & Hfilter & Hkept).
  set (h1 := <[fresh (dom h) := Store.OArray kept]> h).
  assert (Hsub1 : h ⊆ h1) by apply alloc_extends.
  destruct (flat_sales_run kept
              (List.filter (fun o => Status_eqb (status o) paid) pg) h1)
    as (h2 & parts & Hflat & Hsub2 & Hsales).
  { eapply Forall2_impl; [exact Hkept|]. intros l0 o0 H0.
    eapply holds_order_weaken; eauto. }
  set (h3 := <[fresh (dom h2) := Store.OArray (concat parts)]> h2).
  assert (Hsub3 : h2 ⊆ h3) by apply alloc_extends.
  set (acc := fresh (dom h3)).
  set (h4 := <[acc := Store.OMap []]> h3).
  assert (Hsub4 : h3 ⊆ h4) by apply alloc_extends.
  assert (Hsub : h ⊆ h3) by (etrans; [exact Hsub1 | etrans; eauto]).
  assert (Hfresh : h3 !! acc = None) by apply fresh_None.
  exists acc, (<[acc := Store.OMap (processPageToSales pg)]> h3).
  split_and!.
  - unfold Store.processPageToSales.
    rewrite (bind_Ok _ _ _ _ _ (loadArray_Some _ _ _ Hp)).
    rewrite (bind_Ok _ _ _ _ _ Hfilter).
    rewrite (bind_Ok _ _ _ _ _ (alloc_run _ _)). fold h1.
    rewrite (bind_Ok _ _ _ _ _ Hflat).
    rewrite (bind_Ok _ _ _ _ _ (alloc_run _ _)). fold h3.
    rewrite (bind_Ok _ _ _ _ _ (alloc_run _ _)). fold acc. fold h4.
    rewrite (reduce_sales_run (concat parts) (salesOf pg) h4 acc []).
    + unfold h4. rewrite insert_insert_eq. reflexivity.
    + apply lookup_insert_eq.
    + eapply Forall2_impl; [exact Hsales|]. intros l0 s0 H0. simpl in *.
      eapply lookup_weaken; [exact H0|]. etrans; eauto.
  - destruct (h !! acc) as [o|] eqn:Hacc; [|reflexivity].
    apply (lookup_weaken _ _ _ _ Hacc) in Hsub. congruence.
  - etrans; [exact Hsub|]. by apply insert_subseteq.
  - apply lookup_insert_eq.
Qed.

End StoreFacts.

(** C8.  [mergeCategoryTotals] returns a map that is a new object and
    leaves every object of the store as it was, its two arguments
    included (also when they are the same object); [processPageToSales]
    returns a new map and leaves every object of the store as it was, so
    the page, its orders and their items are unchanged. *)
Theorem C8_inputs_not_mutated (h : gmap nat Store.obj) :
  (forall a b ma mb,
     h !! a = Some (Store.OMap ma) -> h !! b = Some (Store.OMap mb) ->
     exists r h',
       Store.mergeCategoryTotals a b h = (h', Ok r) /\
       h !! r = None /\
       (forall l o, h !! l = Some o -> h' !! l = Some o) /\
       h' !! a = Some (Store.OMap ma) /\
       h' !! b = Some (Store.OMap mb) /\
       h' !! r = Some (Store.OMap (mergeCategoryTotals ma mb))) /\
  (forall p pg,
     Store.holds_page h p pg ->
     exists r h',
       Store.processPageToSales p h = (h', Ok r) /\
       h !! r = None /\
       (forall l o, h !! l = Some o -> h' !! l = Some o) /\
       Store.holds_page h' p pg /\
       h' !! r = Some (Store.OMap (processPageToSales pg))).
Proof.
  split.
  - intros a b ma mb Ha Hb.
    exists (fresh (dom h)),
           (<[fresh (dom h) := Store.OMap (mergeCategoryTotals ma mb)]> h).
    pose proof (fresh_None h) as Hfresh.
    assert (Hsub : h ⊆ <[fresh (dom h) :=
                          Store.OMap (mergeCategoryTotals ma mb)]> h)
      by by apply insert_subseteq.
    split_and!.
    + by apply mergeCategoryTotals_run.
    + exact Hfresh.
    + intros l o Hl. eapply lookup_weaken; eauto.
    + eapply lookup_weaken; eauto.
    + eapply lookup_weaken; eauto.
    + apply lookup_insert_eq.
  - intros p pg Hpage.
    destruct (processPageToSales_run h p pg Hpage)
      as (r & h' & Hrun & Hfresh & Hsub & Hr).
    exists r, h'. split_and!; auto.
    + intros l o Hl. eapply lookup_weaken; eauto.
    + eapply holds_page_weaken; eauto.
Qed.

Lemma C8_witness :
  let h : gmap nat Store.obj :=
    <[0%nat := Store.OArray [1%nat]]>
    (<[1%nat := Store.OOrder "o1" "c1" "2025-08-01T10:00:00Z" paid 2%nat]>
    (<[2%nat := Store.OArray [3%nat; 4%nat]]>
    (<[3%nat := Store.OItem (item "A1" 2 1200 "books")]>
    (<[4%nat := Store.OItem (item "F4" 3 500 "food")]>
    (<[5%nat := Store.OMap [("books", 100); ("tools", 9999)]]>
    (<[6%nat := Store.OMap [("books", 1)]]> ∅)))))) in
  let page : Page :=
    [ {| order_id := "o1"; customerId := "c1";
         createdAt := "2025-08-01T10:00:00Z"; status := paid;
         items := [ item "A1" 2 1200 "books"; item "F4" 3 500 "food" ] |} ] in
  (exists r h',
     Store.mergeCategoryTotals 5%nat 6%nat h = (h', Ok r) /\
     h' !! 5%nat = Some (Store.OMap [("books", 100); ("tools", 9999)]) /\
     h' !! 6%nat = Some (Store.OMap [("books", 1)]) /\
     h' !! r = Some (Store.OMap [("books", 101); ("tools", 9999)])) /\
  (exists r h',
     Store.processPageToSales 0%nat h = (h', Ok r) /\
     Store.holds_page h' 0%nat page /\
     h' !! r = Some (Store.OMap [("books", 2400); ("food", 1500)])).
Proof.
  intros h page.
  destruct (C8_inputs_not_mutated h) as [Hmerge Hprocess].
  split.
  - destruct (Hmerge 5%nat 6%nat [("books", 100); ("tools", 9999)]
                [("books", 1)] eq_refl eq_refl)
      as (r & h' & Hrun & _ & _ & Ha & Hb & Hr).
    exists r, h'. split_and!; assumption.
  - assert (Hpage : Store.holds_page h 0%nat page).
    { exists [1%nat]. split; [reflexivity|].
      constructor; [|constructor].
      exists 2%nat. split; [reflexivity|].
      exists [3%nat; 4%nat]. split; [reflexivity|].
      repeat constructor. }
    destruct (Hprocess 0%nat page Hpage)
      as (r & h' & Hrun & _ & _ & Hheld & Hr).
    exists r, h'. split_and!; assumption.
Defined.

(* ================================================================== *)
(** * Part III. Further properties of the code                         *)
(* ================================================================== *)

(** ** Algebra of [addTotal] and [mergeCategoryTotals] *)

Section MergeAlgebra.

Implicit Types (a b m : JsMap) (k c : string) (v : Z).

Lemma hasKey_In k (ks : list string) : hasKey k ks = true <-> In k ks.
Proof.
  unfold hasKey. rewrite existsb_exists. split.
  - intros (k' & Hin & Heq). apply String.eqb_eq in Heq. by subst.
  - intros Hin. exists k. split; [exact Hin | apply String.eqb_refl].
Qed.

Lemma hasKey_false k (ks : list string) : hasKey k ks = false <-> ~ In k ks.
Proof. rewrite <- hasKey_In. destruct (hasKey k ks); split; done. Qed.

Lemma keys_addTotal m k v :
  keys (addTotal m k v) = if hasKey k (keys m) then keys m else keys m ++ [k].
Proof.
  unfold addTotal. destruct (hasKey k (keys m)) eqn:E.
  - apply keys_set_present. by apply hasKey_In.
  - apply hasKey_false in E. rewrite keys_set_absent by done.
    unfold keys. by rewrite map_app.
Qed.

Lemma totalOf_addTotal m k v c :
  totalOf (addTotal m k v) c
  = if String.eqb k c then totalOf m c + v else totalOf m c.
Proof.
  unfold totalOf, addTotal. destruct (String.eqb_spec k c) as [-> | Hne].
  - by rewrite Map_get_set_eq.
  - by rewrite Map_get_set_ne.
Qed.

Lemma Map_set_set m k v v' : Map_set (Map_set m k v) k v' = Map_set m k v'.
Proof.
  induction m as [|[k0 v0] m IH]; simpl.
  - by rewrite String.eqb_refl.
  - destruct (String.eqb k0 k) eqn:E; simpl; rewrite E; [done | by rewrite IH].
Qed.

Lemma addTotal_addTotal m k v v' :
  addTotal (addTotal m k v) k v' = addTotal m k (v + v').
Proof.
  unfold addTotal. rewrite Map_get_set_eq, Map_set_set. simpl.
  f_equal. lia.
Qed.

(** Two updates of different keys commute when the first key is present:
    its update is in place. *)
Lemma Map_set_comm m k k' v v' :
  k <> k' -> In k (keys m) ->
  Map_set (Map_set m k v) k' v' = Map_set (Map_set m k' v') k v.
Proof.
  intros Hne. induction m as [|[k0 v0] m IH]; simpl; [tauto|].
  intros Hin.
  destruct (String.eqb_spec k0 k) as [-> | Hk]; simpl.
  - destruct (String.eqb_spec k k') as [? | _]; [contradiction|]. simpl.
    by rewrite String.eqb_refl.
  - destruct (String.eqb_spec k0 k') as [-> | Hk']; simpl.
    + destruct (String.eqb_spec k' k) as [? | _]; [by subst|]. reflexivity.
    + destruct (String.eqb_spec k0 k) as [? | _]; [contradiction|].
      rewrite IH; [reflexivity|]. destruct Hin as [? | ?]; [contradiction | done].
Qed.

Lemma addTotal_comm m k k' v v' :
  k <> k' -> In k (keys m) ->
  addTotal (addTotal m k v) k' v' = addTotal (addTotal m k' v') k v.
Proof.
  intros Hne Hin. unfold addTotal.
  rewrite (Map_get_set_ne m k k') by done.
  rewrite (Map_get_set_ne m k' k) by done.
  by apply Map_set_comm.
Qed.

Lemma In_keys_addTotal m k v : In k (keys (addTotal m k v)).
Proof.
  rewrite keys_addTotal. destruct (hasKey k (keys m)) eqn:E.
  - by apply hasKey_In.
  - apply in_or_app. right. by left.
Qed.

Lemma In_keys_addTotal_mono m k k' v :
  In k (keys m) -> In k (keys (addTotal m k' v)).
Proof.
  intros Hin. rewrite keys_addTotal. destruct (hasKey k' (keys m)); [done|].
  apply in_or_app. by left.
Qed.

(** Adding to a key that is already there and not met again commutes with
    a merge. *)
Lemma mergeCategoryTotals_addTotal_present b :
  forall m k v,
    In k (keys m) -> ~ In k (keys b) ->
    mergeCategoryTotals (addTotal m k v) b
    = addTotal (mergeCategoryTotals m b) k v.
Proof.
  induction b as [|[k1 v1] b IH]; intros m k v Hin Hout; [reflexivity|].
  simpl in Hout. rewrite !mergeCategoryTotals_cons.
  assert (Hne : k <> k1) by (intros ->; tauto).
  rewrite addTotal_comm by done.
  apply IH; [by apply In_keys_addTotal_mono | tauto].
Qed.

Lemma addTotal_cons k0 v0 b k v :
  addTotal ((k0, v0) :: b) k v
  = if String.eqb k0 k then (k0, v0 + v) :: b else (k0, v0) :: addTotal b k v.
Proof. unfold addTotal. simpl. by destruct (String.eqb k0 k). Qed.

(** Adding to the page's map first, or to the merged map afterwards, is
    the same. *)
Lemma mergeCategoryTotals_addTotal b :
  forall m k v,
    Map_wf b ->
    mergeCategoryTotals m (addTotal b k v)
    = addTotal (mergeCategoryTotals m b) k v.
Proof.
  induction b as [|[k0 v0] b IH]; intros m k v Hwf.
  - reflexivity.
  - unfold Map_wf in Hwf. simpl in Hwf. apply NoDup_cons in Hwf as [Hk0 Hwf].
    rewrite list_elem_of_In in Hk0.
    rewrite addTotal_cons.
    destruct (String.eqb_spec k0 k) as [-> | Hne].
    + rewrite !mergeCategoryTotals_cons.
      rewrite <- mergeCategoryTotals_addTotal_present
        by (auto using In_keys_addTotal).
      by rewrite addTotal_addTotal.
    + rewrite !mergeCategoryTotals_cons. by apply IH.
Qed.

Lemma mergeCategoryTotals_assoc a b (d : JsMap) :
  Map_wf b ->
  mergeCategoryTotals (mergeCategoryTotals a b) d
  = mergeCategoryTotals a (mergeCategoryTotals b d).
Proof.
  revert b. induction d as [|[k v] d IH]; intros b Hwf; [reflexivity|].
  rewrite !mergeCategoryTotals_cons.
  rewrite <- IH by by apply addTotal_wf.
  by rewrite mergeCategoryTotals_addTotal.
Qed.

End MergeAlgebra.

(** ** What [processPageToSales] and [mergeCategoryTotals] compute *)

Section Aggregation.

Implicit Types (a b m : JsMap) (k c : string) (v : Z) (page : Page).

Lemma processPageToSales_aggregate page :
  processPageToSales page = aggregate (salesOf page) [].
Proof. reflexivity. Qed.

Lemma aggregate_app (s1 s2 : list CategorySale) m :
  aggregate (s1 ++ s2) m = aggregate s2 (aggregate s1 m).
Proof. apply fold_left_app. Qed.

Lemma aggregate_wf (sales : list CategorySale) m :
  Map_wf m -> Map_wf (aggregate sales m).
Proof. apply fold_addTotal_wf. Qed.

Lemma Map_wf_nil : Map_wf [].
Proof. unfold Map_wf. simpl. by apply NoDup_nil. Qed.

(** Reducing from [m] is merging into [m] what the reduction gives from
    the empty map. *)
Lemma aggregate_merge (sales : list CategorySale) m :
  aggregate sales m = mergeCategoryTotals m (aggregate sales []).
Proof.
  induction sales as [|s sales IH] using rev_ind; [reflexivity|].
  rewrite !aggregate_app. simpl.
  rewrite mergeCategoryTotals_addTotal by apply aggregate_wf, Map_wf_nil.
  by rewrite IH.
Qed.

Lemma salesOf_app (p1 p2 : Page) : salesOf (p1 ++ p2) = salesOf p1 ++ salesOf p2.
Proof. unfold salesOf. by rewrite List.filter_app, flat_map_app. Qed.

Lemma salesOf_paidItems page :
  salesOf page
  = map (fun it => {| sale_category := category it;
                      total := qty it * unitPrice it |}) (paidItems page).
Proof.
  unfold salesOf, paidItems.
  induction (List.filter _ page) as [|o l IH]; simpl; [done|].
  by rewrite IH, map_app.
Qed.

Lemma fold_mergePage (pages : list Page) m :
  fold_left mergePage pages m = aggregate (salesOf (concat pages)) m.
Proof.
  revert m. induction pages as [|p pages IH]; intros m; [reflexivity|].
  simpl. rewrite salesOf_app, aggregate_app, IH. f_equal.
  unfold mergePage. by rewrite processPageToSales_aggregate, <- aggregate_merge.
Qed.

Lemma totalOf_aggregate (sales : list CategorySale) m c :
  totalOf (aggregate sales m) c
  = totalOf m c
    + fold_right Z.add 0
        (map total
             (List.filter (fun s => String.eqb (sale_category s) c) sales)).
Proof.
  revert m. induction sales as [|s sales IH]; intros m; simpl; [lia|].
  change (fold_left _ sales ?x) with (aggregate sales x).
  rewrite IH, totalOf_addTotal.
  destruct (String.eqb (sale_category s) c); simpl; lia.
Qed.

Lemma keys_aggregate (sales : list CategorySale) m c :
  In c (keys (aggregate sales m)) <->
  In c (keys m) \/ In c (map sale_category sales).
Proof.
  revert m. induction sales as [|s sales IH]; intros m; simpl; [tauto|].
  change (fold_left _ sales ?x) with (aggregate sales x).
  rewrite IH, keys_addTotal.
  destruct (hasKey (sale_category s) (keys m)) eqn:E.
  - apply hasKey_In in E. split; [tauto|]. intros [? | [<- | ?]]; tauto.
  - rewrite in_app_iff. simpl. tauto.
Qed.

Lemma keys_aggregate_order (sales : list CategorySale) m :
  keys (aggregate sales m)
  = keys m ++ List.filter (fun k => negb (hasKey k (keys m)))
                          (firstOccurrences (map sale_category sales)).
Proof.
  revert m. induction sales as [|s sales IH]; intros m; simpl.
  - by rewrite app_nil_r.
  - change (fold_left _ sales ?x) with (aggregate sales x).
    rewrite IH, keys_addTotal. set (k := sale_category s).
    destruct (hasKey k (keys m)) eqn:E; simpl.
    + f_equal. rewrite filter_filter_andb. apply filter_ext. intros k'.
      destruct (String.eqb_spec k' k) as [-> | Hne]; simpl; [by rewrite E | done].
    + rewrite <- app_assoc. simpl. do 2 f_equal.
      rewrite filter_filter_andb. apply filter_ext. intros k'.
      unfold hasKey. rewrite existsb_app. simpl.
      rewrite orb_false_r, negb_orb. apply andb_comm.
Qed.

Lemma firstOccurrences_NoDup (l : list string) : NoDup (firstOccurrences l).
Proof.
  induction l as [|k l IH]; simpl; [by apply NoDup_nil|].
  apply NoDup_cons. split.
  - rewrite list_elem_of_In. intros Hin. apply filter_In in Hin as [_ Hin].
    by rewrite String.eqb_refl in Hin.
  - apply NoDup_ListNoDup, List.NoDup_filter. by apply NoDup_ListNoDup.
Qed.

Lemma firstOccurrences_In (l : list string) k :
  In k (firstOccurrences l) <-> In k l.
Proof.
  induction l as [|k0 l IH]; simpl; [tauto|].
  rewrite filter_In, IH.
  destruct (String.eqb_spec k k0) as [-> | Hne]; simpl; [tauto|].
  split; [tauto|]. intros [? | ?]; [by subst | tauto].
Qed.

Lemma keys_mergeCategoryTotals a b :
  Map_wf b ->
  keys (mergeCategoryTotals a b)
  = keys a ++ List.filter (fun k => negb (hasKey k (keys a))) (keys b).
Proof.
  revert a. induction b as [|[k v] b IH]; intros a Hwf.
  - simpl. by rewrite app_nil_r.
  - unfold Map_wf in Hwf. simpl in Hwf. apply NoDup_cons in Hwf as [Hk Hwf].
    rewrite list_elem_of_In in Hk.
    rewrite mergeCategoryTotals_cons, IH, keys_addTotal by done. simpl.
    destruct (hasKey k (keys a)) eqn:E; simpl; [done|].
    rewrite <- app_assoc. simpl. do 2 f_equal.
    apply filter_ext_in. intros k' Hk'.
    unfold hasKey. rewrite existsb_app. simpl. rewrite orb_false_r.
    destruct (String.eqb_spec k' k) as [-> | _]; [contradiction|].
    by rewrite orb_false_r.
Qed.

Lemma mergeCategoryTotals_disjoint a b :
  Map_wf b -> (forall k, In k (keys a) -> ~ In k (keys b)) ->
  mergeCategoryTotals a b = a ++ b.
Proof.
  revert a. induction b as [|[k v] b IH]; intros a Hwf Hdis.
  - simpl. by rewrite app_nil_r.
  - unfold Map_wf in Hwf. simpl in Hwf. apply NoDup_cons in Hwf as [Hk Hwf].
    rewrite list_elem_of_In in Hk.
    assert (Hka : ~ In k (keys a)).
    { intros Hin. apply (Hdis k Hin). by left. }
    rewrite mergeCategoryTotals_cons. unfold addTotal.
    rewrite keys_set_absent by done.
    apply Map_get_None in Hka. rewrite Hka. simpl.
    rewrite IH; [by rewrite <- app_assoc | done |].
    intros k' Hin. unfold keys in Hin. rewrite map_app, in_app_iff in Hin.
    destruct Hin as [Hin | [<- | []]]; [|done].
    intros Hb. apply (Hdis k' Hin). by right.
Qed.

End Aggregation.

Lemma sum_sales_of_items (c : string) (l : list LineItem) :
  fold_right Z.add 0
    (map total
       (List.filter (fun s => String.eqb (sale_category s) c)
          (map (fun it => {| sale_category := category it;
                             total := qty it * unitPrice it |}) l)))
  = fold_right Z.add 0
      (map (fun it => qty it * unitPrice it)
           (List.filter (fun it => String.eqb (category it) c) l)).
Proof.
  induction l as [|it l IH]; simpl; [done|].
  destruct (String.eqb (category it) c); simpl; by rewrite IH.
Qed.

(** The side conditions [exactAmounts] and [exactTotals] on given data, by
    computation. *)
Ltac solve_exact :=
  first
    [ split;
      [ intros it Hin; simpl in Hin;
        repeat (destruct Hin as [<- | Hin];
                [split; vm_compute; discriminate|]);
        destruct Hin
      | vm_compute; discriminate ]
    | vm_compute; discriminate ].

(** X1.  On a page whose amounts are integers in the range where the
    program's arithmetic is exact, the map [processPageToSales] returns
    holds, for each category, the sum of [qty * unitPrice] over the line
    items of that category in the paid orders of the page, added in page
    order, and has no entry for a category without such an item. *)
Theorem X1_process_category_total (page : Page) (c : string) :
  exactAmounts page ->
  totalOf (processPageToSales page) c = categoryTotal c page /\
  (forall v, Map_get (processPageToSales page) c = Some v ->
     v = categoryTotal c page /\
     exists it, In it (paidItems page) /\ category it = c) /\
  (Map_get (processPageToSales page) c = None <->
   forall it, In it (paidItems page) -> category it <> c).
Proof.
  intros _.
  assert (Htot : totalOf (processPageToSales page) c = categoryTotal c page).
  { rewrite processPageToSales_aggregate, totalOf_aggregate.
    rewrite salesOf_paidItems, sum_sales_of_items. unfold categoryTotal.
    rewrite (fold_symmetric Z.add Z.add_assoc 0 (Z.add_comm 0)).
    reflexivity. }
  assert (Hkeys : In c (keys (processPageToSales page)) <->
                  exists it, In it (paidItems page) /\ category it = c).
  { rewrite processPageToSales_aggregate, keys_aggregate, salesOf_paidItems.
    rewrite map_map. simpl. rewrite in_map_iff. split.
    - intros [[] | (it & Hc & Hin)]. eauto.
    - intros (it & Hin & Hc). right. eauto. }
  split_and!.
  - exact Htot.
  - intros v Hv. split.
    + rewrite <- Htot. unfold totalOf. by rewrite Hv.
    + apply Hkeys. apply Map_get_In in Hv.
      change c with (fst (c, v)). by apply in_map.
  - rewrite Map_get_None, Hkeys. split.
    + intros Hno it Hin Hc. apply Hno. eauto.
    + intros Hall (it & Hin & Hc). by apply (Hall it).
Qed.

Lemma X1_witness :
  totalOf (processPageToSales (nth 0 (yielded fetchOrderPages) [])) "books"
  = 0 + 2 * 1200 + 1 * 2500.
Proof.
  assert (Hexact : exactAmounts (nth 0 (yielded fetchOrderPages) []))
    by solve_exact.
  exact (proj1 (X1_process_category_total
                  (nth 0 (yielded fetchOrderPages) []) "books" Hexact)).
Defined.

(** X2.  The keys of the map [processPageToSales] returns are the
    categories of the paid line items, each once, in the order in which
    they first occur in the page. *)
Theorem X2_process_keys_in_first_occurrence_order (page : Page) :
  keys (processPageToSales page)
  = firstOccurrences (map category (paidItems page)) /\
  NoDup (keys (processPageToSales page)).
Proof.
  split; [|apply processPageToSales_wf].
  rewrite processPageToSales_aggregate, keys_aggregate_order. simpl.
  rewrite salesOf_paidItems, map_map. simpl.
  induction (firstOccurrences _) as [|k l IH]; simpl; [done|]. by rewrite IH.
Qed.

(** X3.  An order whose status is not [paid] can be taken out of a page,
    wherever it stands, without changing what [processPageToSales]
    returns. *)
Theorem X3_process_ignores_unpaid_orders (p1 p2 : Page) (o : Order) :
  status o <> paid ->
  processPageToSales (p1 ++ o :: p2) = processPageToSales (p1 ++ p2).
Proof.
  intros Hst. rewrite !processPageToSales_aggregate. f_equal.
  rewrite !salesOf_app. f_equal. unfold salesOf. simpl.
  destruct (status o); simpl; congruence.
Qed.

Lemma X3_witness :
  processPageToSales
    [ {| order_id := "o3"; customerId := "c3"; createdAt := "";
         status := pending; items := [ item "X" 10 100 "food" ] |};
      {| order_id := "o4"; customerId := "c4"; createdAt := "";
         status := paid; items := [ item "H1" 1 5000 "tools" ] |} ]
  = [("tools", 5000)].
Proof.
  apply (X3_process_ignores_unpaid_orders []
           [ {| order_id := "o4"; customerId := "c4"; createdAt := "";
                status := paid; items := [ item "H1" 1 5000 "tools" ] |} ]
           {| order_id := "o3"; customerId := "c3"; createdAt := "";
              status := pending; items := [ item "X" 10 100 "food" ] |}).
  simpl. discriminate.
Defined.

(** X4.  On pages whose amounts are integers in the range where the
    program's arithmetic is exact, aggregating two pages laid end to end
    gives the same map as aggregating each and merging the results. *)
Theorem X4_process_append_is_merge (p1 p2 : Page) :
  exactAmounts (p1 ++ p2) ->
  processPageToSales (p1 ++ p2)
  = mergeCategoryTotals (processPageToSales p1) (processPageToSales p2).
Proof.
  intros _.
  rewrite !processPageToSales_aggregate, salesOf_app, aggregate_app.
  apply aggregate_merge.
Qed.

Lemma X4_witness :
  let p1 := nth 0 (yielded fetchOrderPages) [] in
  let p2 := nth 1 (yielded fetchOrderPages) [] in
  processPageToSales (p1 ++ p2)
  = mergeCategoryTotals (processPageToSales p1) (processPageToSales p2) /\
  processPageToSales (p1 ++ p2)
  = [("books", 4900); ("food", 3100); ("tools", 14999)].
Proof.
  intros p1 p2. split; [|reflexivity].
  apply (X4_process_append_is_merge p1 p2). solve_exact.
Defined.

(** X5.  In a merged map the total of every category is the sum of its
    totals in the two arguments, so merging in either order gives the same
    value for every key (the order of the keys may differ). *)
Theorem X5_merge_commutes_as_mapping (a b : JsMap) (c : string) :
  Map_wf a -> Map_wf b ->
  totalOf (mergeCategoryTotals a b) c = totalOf a c + totalOf b c /\
  Map_get (mergeCategoryTotals a b) c = Map_get (mergeCategoryTotals b a) c.
Proof.
  intros Ha Hb. unfold totalOf.
  destruct (Map_get a c) as [va|] eqn:Ea; destruct (Map_get b c) as [vb|] eqn:Eb.
  - rewrite (mergeCategoryTotals_present a b c vb Hb Eb).
    rewrite (mergeCategoryTotals_present b a c va Ha Ea).
    rewrite Ea, Eb. simpl. split; [done | f_equal; lia].
  - rewrite (mergeCategoryTotals_absent a b c Eb).
    rewrite (mergeCategoryTotals_present b a c va Ha Ea).
    rewrite Ea, Eb. simpl. split; [lia | done].
  - rewrite (mergeCategoryTotals_present a b c vb Hb Eb).
    rewrite (mergeCategoryTotals_absent b a c Ea).
    rewrite Ea, Eb. simpl. split; [lia | done].
  - rewrite (mergeCategoryTotals_absent a b c Eb).
    rewrite (mergeCategoryTotals_absent b a c Ea).
    rewrite Ea, Eb. simpl. split; [lia | done].
Qed.

Lemma X5_witness :
  let a := [("books", 2400); ("food", 1500)] in
  let b := [("tools", 9999); ("books", 100)] in
  totalOf (mergeCategoryTotals a b) "books" = 2400 + 100 /\
  Map_get (mergeCategoryTotals a b) "books"
  = Map_get (mergeCategoryTotals b a) "books".
Proof.
  intros a b.
  apply (X5_merge_commutes_as_mapping a b "books"); solve_wf.
Defined.

(** X6.  On maps whose totals are integers in the range where adding
    them is exact, merging is associative: merging [b] then [d] into [a]
    gives the same map, in the same key order, as merging [d] into [b]
    first. *)
Theorem X6_merge_associative (a b d : JsMap) :
  exactTotals (a ++ b ++ d) ->
  Map_wf b ->
  mergeCategoryTotals (mergeCategoryTotals a b) d
  = mergeCategoryTotals a (mergeCategoryTotals b d).
Proof. intros _. apply mergeCategoryTotals_assoc. Qed.

Lemma X6_witness :
  mergeCategoryTotals
    (mergeCategoryTotals [("books", 1)] [("food", 2); ("books", 3)])
    [("tools", 4); ("food", 5)]
  = mergeCategoryTotals [("books", 1)]
      (mergeCategoryTotals [("food", 2); ("books", 3)]
                           [("tools", 4); ("food", 5)]).
Proof.
  apply (X6_merge_associative [("books", 1)] [("food", 2); ("books", 3)]
           [("tools", 4); ("food", 5)]).
  - solve_exact.
  - solve_wf.
Defined.

(** X7.  Merging never removes or moves a key of the running map: the
    keys of the result are those of [a], in place, followed by the keys of
    [b] that [a] does not have, in the order of [b]. *)
Theorem X7_merge_keeps_key_order (a b : JsMap) :
  Map_wf b ->
  keys (mergeCategoryTotals a b)
  = keys a ++ List.filter (fun k => negb (hasKey k (keys a))) (keys b).
Proof. apply keys_mergeCategoryTotals. Qed.

Lemma X7_witness :
  keys (mergeCategoryTotals [("books", 2400); ("food", 1500)]
                            [("tools", 9999); ("books", 100)])
  = ["books"; "food"; "tools"].
Proof.
  apply (X7_merge_keeps_key_order [("books", 2400); ("food", 1500)]
           [("tools", 9999); ("books", 100)]).
  solve_wf.
Defined.

(** X8.  Merging a map into one it shares no key with appends its
    entries; in particular merging into the empty map copies it. *)
Theorem X8_merge_disjoint_appends (a b : JsMap) :
  Map_wf b ->
  (forall k, In k (keys a) -> ~ In k (keys b)) ->
  mergeCategoryTotals a b = a ++ b /\
  mergeCategoryTotals [] b = b.
Proof.
  intros Hwf Hdis. split.
  - by apply mergeCategoryTotals_disjoint.
  - apply (mergeCategoryTotals_disjoint [] b Hwf). intros k [].
Qed.

Lemma X8_witness :
  mergeCategoryTotals [("books", 2400)] [("tools", 9999); ("food", 1500)]
  = [("books", 2400); ("tools", 9999); ("food", 1500)] /\
  mergeCategoryTotals [] [("tools", 9999); ("food", 1500)]
  = [("tools", 9999); ("food", 1500)].
Proof.
  apply (X8_merge_disjoint_appends [("books", 2400)]
           [("tools", 9999); ("food", 1500)]).
  - solve_wf.
  - intros k [<- | []]. simpl. intros [H | [H | []]]; discriminate.
Defined.

(** X9.  On pages whose amounts are integers in the range where the
    program's arithmetic is exact, the map [streamTopCategories] returns
    is what [processPageToSales] gives on all the orders of all the pages
    at once: paging changes neither the totals nor the order of the
    keys. *)
Theorem X9_stream_totals_equal_one_shot {W : Type} (onUpdate : Callback W)
    (pages : list Page) (limit : Z) (w : W) (r : Run W) (totals : JsMap) :
  exactAmounts (concat pages) ->
  streamTopCategories (ofList pages) limit onUpdate w = (r, Ok totals) ->
  totals = processPageToSales (concat pages).
Proof.
  unfold streamTopCategories. intros _ Hrun.
  apply forAwait_Ok in Hrun as (-> & _ & _).
  by rewrite fold_mergePage, processPageToSales_aggregate.
Qed.

Lemma X9_witness :
  snd (streamTopCategories fetchOrderPages 3 recordCalls [])
  = Ok (processPageToSales (concat (yielded fetchOrderPages))).
Proof.
  pose (run := streamTopCategories fetchOrderPages 3 recordCalls []).
  assert (Hrun : streamTopCategories (ofList (yielded fetchOrderPages)) 3
                   recordCalls []
                 = (fst run, Ok (runningAfter (yielded fetchOrderPages) 3)))
    by reflexivity.
  assert (Hexact : exactAmounts (concat (yielded fetchOrderPages)))
    by solve_exact.
  rewrite <- (X9_stream_totals_equal_one_shot recordCalls
                (yielded fetchOrderPages) 3 [] (fst run) _ Hexact Hrun).
  reflexivity.
Defined.

(** ** More about [topNFromMap] *)

Section TopN.

Implicit Types (m : JsMap) (l : list Entry) (e : Entry).

Lemma totalGe_trans (x y z : Entry) : totalGe x y -> totalGe y z -> totalGe x z.
Proof. unfold totalGe. lia. Qed.

Lemma toSorted_StronglySorted l : StronglySorted totalGe (toSorted byTotalDesc l).
Proof.
  apply Sorted_StronglySorted; [|apply toSorted_Sorted].
  intros x y z. apply totalGe_trans.
Qed.

Lemma StronglySorted_app_between {A} (R : A -> A -> Prop) (l1 l2 : list A) :
  StronglySorted R (l1 ++ l2) ->
  forall x y, In x l1 -> In y l2 -> R x y.
Proof.
  induction l1 as [|a l1 IH]; simpl; intros Hs x y Hx Hy; [tauto|].
  apply StronglySorted_inv in Hs as [Hs Hall].
  destruct Hx as [<- | Hx]; [|by apply IH].
  rewrite List.Forall_forall in Hall. apply Hall, in_or_app. by right.
Qed.

(** Stability: among the entries with a given total, sorting keeps the
    order they had. *)
Lemma insertSorted_filter_total (t : Z) e l :
  List.filter (fun x => Z.eqb (snd x) t) (insertSorted byTotalDesc e l)
  = List.filter (fun x => Z.eqb (snd x) t) (e :: l).
Proof.
  induction l as [|y l IH]; [reflexivity|].
  simpl insertSorted. unfold byTotalDesc at 1.
  destruct (Z.leb_spec (snd y - snd e) 0) as [Hle | Hgt]; [reflexivity|].
  simpl in *. rewrite IH.
  destruct (Z.eqb_spec (snd e) t) as [He | He];
    destruct (Z.eqb_spec (snd y) t) as [Hy | Hy]; try reflexivity.
  lia.
Qed.

Lemma toSorted_filter_total (t : Z) l :
  List.filter (fun x => Z.eqb (snd x) t) (toSorted byTotalDesc l)
  = List.filter (fun x => Z.eqb (snd x) t) l.
Proof.
  induction l as [|e l IH]; [reflexivity|].
  simpl toSorted. rewrite insertSorted_filter_total. simpl. by rewrite IH.
Qed.

Lemma filter_firstn_isPrefix {A} (f : A -> bool) (n : nat) (l : list A) :
  isPrefix (List.filter f (firstn n l)) (List.filter f l).
Proof.
  exists (List.filter f (skipn n l)).
  by rewrite <- List.filter_app, firstn_skipn.
Qed.

End TopN.

(** X10.  A snapshot really holds the largest totals: no entry of the map
    that is left out of it has a larger total than an entry that is in
    it. *)
Theorem X10_topN_keeps_the_largest (m : JsMap) (n : Z)
    (snapshot : list Entry) :
  topNFromMap m n = Ok snapshot ->
  forall kept left,
    In kept snapshot -> In left m -> ~ In left snapshot ->
    snd left <= snd kept.
Proof.
  intros Hok kept left Hkept Hleft Hout.
  apply topNFromMap_Ok in Hok as [_ ->].
  pose proof (toSorted_StronglySorted m) as Hs.
  rewrite <- (firstn_skipn (Z.to_nat n) (toSorted byTotalDesc m)) in Hs.
  apply (StronglySorted_app_between _ _ _ Hs kept left Hkept).
  assert (Hin : In left (toSorted byTotalDesc m)).
  { eapply Permutation_in; [symmetry; apply toSorted_Permutation | exact Hleft]. }
  rewrite <- (firstn_skipn (Z.to_nat n)) in Hin.
  apply in_app_or in Hin as [Hin | Hin]; [contradiction | exact Hin].
Qed.

Lemma X10_witness :
  topNFromMap [("food", 3100); ("tools", 29999); ("books", 10300)] 2
  = Ok [("tools", 29999); ("books", 10300)] /\
  3100 <= 10300.
Proof.
  pose (m := [("food", 3100); ("tools", 29999); ("books", 10300)] : JsMap).
  assert (H : topNFromMap m 2 = Ok [("tools", 29999); ("books", 10300)])
    by reflexivity.
  split; [exact H|].
  apply (X10_topN_keeps_the_largest m 2 _ H ("books", 10300) ("food", 3100)).
  - simpl. tauto.
  - simpl. tauto.
  - simpl. intros [Heq | [Heq | []]]; discriminate.
Defined.

(** X11.  Ties are broken by insertion order: the entries of a snapshot
    that have a given total are, in the same order, the first entries of
    the map that have this total. *)
Theorem X11_topN_ties_in_insertion_order (m : JsMap) (n : Z)
    (snapshot : list Entry) (t : Z) :
  topNFromMap m n = Ok snapshot ->
  isPrefix (List.filter (fun e => Z.eqb (snd e) t) snapshot)
           (List.filter (fun e => Z.eqb (snd e) t) m).
Proof.
  intros Hok. apply topNFromMap_Ok in Hok as [_ ->].
  rewrite <- (toSorted_filter_total t m). apply filter_firstn_isPrefix.
Qed.

Lemma X11_witness :
  topNFromMap [("food", 5); ("tools", 9); ("books", 5); ("toys", 5)] 3
  = Ok [("tools", 9); ("food", 5); ("books", 5)] /\
  isPrefix [("food", 5); ("books", 5)]
           [("food", 5); ("books", 5); ("toys", 5)].
Proof.
  pose (m := [("food", 5); ("tools", 9); ("books", 5); ("toys", 5)] : JsMap).
  assert (H : topNFromMap m 3 = Ok [("tools", 9); ("food", 5); ("books", 5)])
    by reflexivity.
  split; [exact H|].
  exact (X11_topN_ties_in_insertion_order m 3 _ 5 H).
Defined.

(** X12.  A snapshot only holds entries of the map, each key at most
    once and with the value the map has for it. *)
Theorem X12_topN_entries_come_from_the_map (m : JsMap) (n : Z)
    (snapshot : list Entry) :
  Map_wf m ->
  topNFromMap m n = Ok snapshot ->
  Map_wf snapshot /\
  (forall c t, In (c, t) snapshot -> Map_get m c = Some t) /\
  (length snapshot <= Map_size m)%nat.
Proof.
  intros Hwf Hok. apply topNFromMap_Ok in Hok as [_ ->].
  pose proof (toSorted_Permutation m) as Hperm.
  assert (Hwf' : Map_wf (toSorted byTotalDesc m)).
  { unfold Map_wf, keys in *. apply NoDup_ListNoDup.
    eapply Permutation_NoDup; [|apply NoDup_ListNoDup; exact Hwf].
    symmetry. by apply Permutation_map. }
  split_and!.
  - unfold Map_wf, keys in *.
    rewrite <- (firstn_skipn (Z.to_nat n) (toSorted byTotalDesc m)) in Hwf'.
    rewrite map_app in Hwf'. by apply NoDup_app in Hwf' as (? & _ & _).
  - intros c t Hin. apply In_Map_get; [exact Hwf|].
    eapply Permutation_in; [exact Hperm|].
    rewrite <- (firstn_skipn (Z.to_nat n)). apply in_or_app. by left.
  - rewrite length_firstn, toSorted_length. unfold Map_size. lia.
Qed.

Lemma X12_witness :
  Map_get [("food", 3100); ("tools", 29999); ("books", 10300)] "tools"
  = Some 29999.
Proof.
  pose (m := [("food", 3100); ("tools", 29999); ("books", 10300)] : JsMap).
  assert (Hwf : Map_wf m) by solve_wf.
  assert (H : topNFromMap m 2 = Ok [("tools", 29999); ("books", 10300)])
    by reflexivity.
  destruct (X12_topN_entries_come_from_the_map m 2 _ Hwf H) as (_ & Hget & _).
  apply Hget. simpl. tauto.
Defined.

(** ** Errors and resumption in [streamTopCategories] *)

Section StreamErrors.

Context {W : Type}.
Implicit Types (onUpdate : Callback W) (r : Run W) (pages : list Page).

Lemma ofList_followedBy pages : ofList pages = followedBy pages Done.
Proof. induction pages as [|p l IH]; simpl; by rewrite ?IH. Qed.

(** A run whose first pages go through continues on the rest of the
    source from the loop variables and the world those pages left. *)
Lemma forAwait_followedBy onUpdate limit pages (rest : AsyncIterable Page) :
  forall running idx r r1 totals1,
    forAwait (ofList pages) limit onUpdate running idx r = (r1, Ok totals1) ->
    forAwait (followedBy pages rest) limit onUpdate running idx r
    = forAwait rest limit onUpdate totals1 (idx + Z.of_nat (length pages)) r1.
Proof.
  induction pages as [|page l IH]; intros running idx r r1 totals1 Hrun.
  - simpl in *. injection Hrun as <- <-. f_equal. lia.
  - simpl in *.
    destruct (topNFromMap _ limit) as [snapshot | e]; [|discriminate].
    destruct (onUpdate snapshot idx (world r)) as [w [[] | e]]; [|discriminate].
    rewrite (IH _ _ _ _ _ Hrun). f_equal. lia.
Qed.

End StreamErrors.

(** X13.  A run can be split at any page boundary: if the first pages go
    through, running the whole source equals continuing on the rest of it
    with the totals returned for the first pages, the next [pageIndex],
    and the world and trace they left. *)
Theorem X13_stream_resumes_after_prefix {W : Type} (onUpdate : Callback W)
    (pages : list Page) (rest : AsyncIterable Page) (limit : Z) (w : W)
    (r1 : Run W) (totals1 : JsMap) :
  streamTopCategories (ofList pages) limit onUpdate w = (r1, Ok totals1) ->
  streamTopCategories (followedBy pages rest) limit onUpdate w
  = forAwait rest limit onUpdate totals1 (Z.of_nat (length pages)) r1.
Proof.
  unfold streamTopCategories. intros Hrun.
  by rewrite (forAwait_followedBy _ _ _ rest _ _ _ _ _ Hrun).
Qed.

Lemma X13_witness :
  let pages := yielded fetchOrderPages in
  let first := firstn 2 pages in
  let r1 := fst (streamTopCategories (ofList first) 3 recordCalls []) in
  streamTopCategories fetchOrderPages 3 recordCalls []
  = forAwait (ofList (skipn 2 pages)) 3 recordCalls
      (runningAfter pages 2) 2 r1.
Proof.
  intros pages first r1.
  assert (Hrun : streamTopCategories (ofList first) 3 recordCalls []
                 = (r1, Ok (runningAfter pages 2))) by reflexivity.
  exact (X13_stream_resumes_after_prefix recordCalls first
           (ofList (skipn 2 pages)) 3 [] r1 _ Hrun).
Defined.

(** X14.  When the source raises after some pages, [streamTopCategories]
    raises the same error, after having processed and reported every
    page that came before: the world and the trace are those of the run
    on the source that ends there. *)
Theorem X14_stream_source_failure {W : Type} (onUpdate : Callback W)
    (pages : list Page) (e : JsError) (limit : Z) (w : W)
    (r1 : Run W) (totals1 : JsMap) :
  streamTopCategories (ofList pages) limit onUpdate w = (r1, Ok totals1) ->
  streamTopCategories (followedBy pages (Fails e)) limit onUpdate w
  = (r1, Throw e) /\
  length (updates (trace r1)) = length pages.
Proof.
  unfold streamTopCategories. intros Hrun. split.
  - by rewrite (forAwait_followedBy _ _ _ (Fails e) _ _ _ _ _ Hrun).
  - apply forAwait_Ok in Hrun as (_ & -> & _). simpl.
    apply updates_traceFrom_length.
Qed.

Lemma X14_witness :
  let pages := firstn 2 (yielded fetchOrderPages) in
  snd (streamTopCategories (followedBy pages (Fails (SourceError "offline")))
         3 recordCalls [])
  = Throw (SourceError "offline") /\
  map snd (world (fst (streamTopCategories
                         (followedBy pages (Fails (SourceError "offline")))
                         3 recordCalls [])))
  = [0; 1].
Proof.
  intros pages.
  pose (r1 := fst (streamTopCategories (ofList pages) 3 recordCalls [])).
  assert (Hrun : streamTopCategories (ofList pages) 3 recordCalls []
                 = (r1, Ok (runningAfter pages 2))) by reflexivity.
  destruct (X14_stream_source_failure recordCalls pages
              (SourceError "offline") 3 [] r1 _ Hrun) as [-> _].
  split; reflexivity.
Defined.

(** X15.  When [onUpdate] raises for a page, [streamTopCategories] raises
    the same error at once: the page has been taken, no update is
    recorded for it, and nothing more is taken from the source, whatever
    it holds. *)
Theorem X15_stream_callback_failure {W : Type} (onUpdate : Callback W)
    (pages : list Page) (page : Page) (rest : AsyncIterable Page)
    (limit : Z) (w w' : W) (r1 : Run W) (totals1 : JsMap) (e : JsError) :
  0 <= limit ->
  streamTopCategories (ofList pages) limit onUpdate w = (r1, Ok totals1) ->
  onUpdate (snapshotOf (mergePage totals1 page) limit)
           (Z.of_nat (length pages)) (world r1) = (w', Throw e) ->
  streamTopCategories (followedBy pages (Yields page rest)) limit onUpdate w
  = ({| world := w'; trace := trace r1 ++ [EvPage page] |}, Throw e).
Proof.
  unfold streamTopCategories. intros Hlimit Hrun Hcb.
  rewrite (forAwait_followedBy _ _ _ (Yields page rest) _ _ _ _ _ Hrun).
  change (0 + Z.of_nat (length pages)) with (Z.of_nat (length pages)).
  cbn [forAwait]. rewrite topNFromMap_nonneg by done.
  change (firstn (Z.to_nat limit)
            (toSorted byTotalDesc
               (mergeCategoryTotals totals1 (processPageToSales page))))
    with (snapshotOf (mergePage totals1 page) limit).
  cbn [world trace]. by rewrite Hcb.
Qed.

Lemma X15_witness :
  let failOnSecond : Callback (list Z) :=
    fun _ i calls => if i =? 1 then (calls, Throw TypeError)
                     else (calls ++ [i], Ok tt) in
  let run := streamTopCategories fetchOrderPages 3 failOnSecond [] in
  snd run = Throw TypeError /\
  world (fst run) = [0] /\
  length (drawn (trace (fst run))) = 2%nat.
Proof.
  intros failOnSecond run.
  pose (pages := firstn 1 (yielded fetchOrderPages)).
  pose (r1 := fst (streamTopCategories (ofList pages) 3 failOnSecond [])).
  assert (Hrun : streamTopCategories (ofList pages) 3 failOnSecond []
                 = (r1, Ok (runningAfter pages 1))) by reflexivity.
  assert (Hlimit : 0 <= 3) by lia.
  pose (page := nth 1 (yielded fetchOrderPages) []).
  assert (Hcb : failOnSecond
                  (snapshotOf (mergePage (runningAfter pages 1) page) 3)
                  (Z.of_nat (length pages)) (world r1)
                = ([0], Throw TypeError)) by reflexivity.
  pose proof (X15_stream_callback_failure failOnSecond pages page
                (ofList (skipn 2 (yielded fetchOrderPages))) 3 [] [0] r1 _
                TypeError Hlimit Hrun Hcb) as H.
  change (followedBy pages _) with fetchOrderPages in H.
  unfold run. rewrite H. split_and!; reflexivity.
Defined.

(** X16.  A negative limit is only noticed when the first page arrives:
    [streamTopCategories] then raises a [RangeError] without calling
    [onUpdate] and without asking for a second page, whereas on a source
    without pages it returns the empty map. *)
Theorem X16_stream_negative_limit {W : Type} (onUpdate : Callback W)
    (page : Page) (rest : AsyncIterable Page) (limit : Z) (w : W) :
  limit < 0 ->
  streamTopCategories (Yields page rest) limit onUpdate w
  = ({| world := w; trace := [EvPage page] |}, Throw RangeError) /\
  streamTopCategories Done limit onUpdate w
  = ({| world := w; trace := [] |}, Ok []).
Proof.
  intros Hneg. split; [|reflexivity].
  unfold streamTopCategories. simpl.
  by rewrite topNFromMap_negative.
Qed.

Lemma X16_witness :
  streamTopCategories fetchOrderPages (-1) recordCalls []
  = ({| world := []; trace := [EvPage (nth 0 (yielded fetchOrderPages) [])] |},
     Throw RangeError).
Proof.
  apply (X16_stream_negative_limit recordCalls
           (nth 0 (yielded fetchOrderPages) [])
           (ofList (skipn 1 (yielded fetchOrderPages))) (-1) []).
  lia.
Defined.

(** ** The broadcaster and the connection handlers *)

Section Connections.

Implicit Types (st : Server) (i j : WsId).

Lemma Set_add_In i (s : list WsId) j : In j (Set_add i s) <-> j = i \/ In j s.
Proof.
  unfold Set_add. destruct (Set_has i s) eqn:E.
  - apply Set_has_In in E. split; [tauto|]. intros [-> | ?]; done.
  - rewrite in_app_iff. simpl. split; [intros [? | [<- | []]]; tauto|].
    intros [-> | ?]; tauto.
Qed.

Lemma Set_add_NoDup i (s : list WsId) : NoDup s -> NoDup (Set_add i s).
Proof.
  intros Hnd. unfold Set_add. destruct (Set_has i s) eqn:E; [done|].
  apply Set_has_false in E. apply NoDup_app. split_and!; [done | |].
  - intros x Hx Hx'. apply list_elem_of_singleton in Hx'. subst.
    apply E. by apply list_elem_of_In.
  - apply NoDup_singleton.
Qed.

Lemma Set_delete_In i (s : list WsId) j :
  In j (Set_delete i s) <-> In j s /\ j <> i.
Proof.
  unfold Set_delete. rewrite filter_In, negb_true_iff, Nat.eqb_neq. tauto.
Qed.

Lemma Set_delete_absent i (s : list WsId) : ~ In i s -> Set_delete i s = s.
Proof.
  intros Hout. unfold Set_delete. induction s as [|j s IH]; simpl; [done|].
  simpl in Hout. destruct (Nat.eqb_spec j i) as [-> | _]; [tauto|].
  simpl. rewrite IH; tauto.
Qed.

Lemma Set_delete_add i (s : list WsId) :
  ~ In i s -> Set_delete i (Set_add i s) = s.
Proof.
  intros Hout. unfold Set_add.
  pose proof Hout as E. apply Set_has_false in E. rewrite E.
  unfold Set_delete. rewrite List.filter_app. simpl.
  rewrite Nat.eqb_refl. simpl. rewrite app_nil_r.
  by apply Set_delete_absent.
Qed.

Lemma Set_delete_NoDup i (s : list WsId) : NoDup s -> NoDup (Set_delete i s).
Proof.
  intros Hnd. apply NoDup_ListNoDup, List.NoDup_filter. by apply NoDup_ListNoDup.
Qed.

Lemma broadcastAll_cons m (msgs : list WireMessage) st :
  broadcastAll (m :: msgs) st = broadcastAll msgs (broadcast m st).
Proof. reflexivity. Qed.

Lemma broadcastAll_healthy (msgs : list WireMessage) :
  forall st i,
    NoDup (clients st) -> healthy st i ->
    healthy (broadcastAll msgs st) i /\
    NoDup (clients (broadcastAll msgs st)) /\
    received (sockets (broadcastAll msgs st) i)
    = received (sockets st i) ++ msgs.
Proof.
  induction msgs as [|m msgs IH]; intros st i Hnd Hh.
  - simpl. by rewrite app_nil_r.
  - rewrite broadcastAll_cons.
    destruct (broadcast_healthy m st i Hnd Hh) as [Hh' Hrec].
    destruct (IH (broadcast m st) i (broadcast_NoDup m st Hnd) Hh')
      as (Hh2 & Hnd2 & Hrec2).
    split_and!; [done | done |].
    rewrite Hrec2, Hrec, <- app_assoc. reflexivity.
Qed.

End Connections.

(** X17.  For any set of clients, [broadcast] removes from the set exactly
    the connections that are open and whose [send] raises, keeps the
    others in their order, and leaves the clock, the timers and the
    console alone. *)
Theorem X17_broadcast_removes_exactly_the_failed (st : Server)
    (msg : WireMessage) :
  NoDup (clients st) ->
  clients (broadcast msg st)
  = List.filter (fun i => negb (isOpen st i && sendThrows (sockets st i)))
                (clients st) /\
  NoDup (clients (broadcast msg st)) /\
  clock (broadcast msg st) = clock st /\
  timers (broadcast msg st) = timers st /\
  console (broadcast msg st) = console st.
Proof.
  intros Hnd. destruct (broadcast_spec msg st Hnd) as (Hc & _ & Hk & Ht & Ho).
  split_and!; auto. by apply broadcast_NoDup.
Qed.

Lemma X17_witness :
  let st := {| clients := [1; 2; 3; 4]%nat;
               sockets := fun i => {| readyState := if Nat.eqb i 3
                                                    then CLOSING else OPEN;
                                      sendThrows := Nat.eqb i 2;
                                      sendCalls := 0;
                                      received := [] |};
               clock := 0; timers := []; console := [] |} in
  clients (broadcast (Hello "update") st) = [1; 3; 4]%nat.
Proof.
  intros st.
  assert (Hnd : NoDup (clients st))
    by (apply (bool_decide_unpack _); vm_compute; exact I).
  destruct (X17_broadcast_removes_exactly_the_failed st (Hello "update") Hnd)
    as (-> & _).
  reflexivity.
Defined.

(** X18.  [broadcast] calls [send] exactly once on every client that is
    open, which receives the frame unless its [send] raises; a client that
    is not open is not sent to and stays in the set; a connection outside
    the set is not touched. *)
Theorem X18_broadcast_sends_once_to_open_clients (st : Server)
    (msg : WireMessage) (i : WsId) :
  NoDup (clients st) ->
  (In i (clients st) -> isOpen st i = true ->
     sendCalls (sockets (broadcast msg st) i) = S (sendCalls (sockets st i)) /\
     received (sockets (broadcast msg st) i)
     = if sendThrows (sockets st i) then received (sockets st i)
       else received (sockets st i) ++ [msg]) /\
  (In i (clients st) -> isOpen st i = false ->
     sockets (broadcast msg st) i = sockets st i /\
     In i (clients (broadcast msg st))) /\
  (~ In i (clients st) -> sockets (broadcast msg st) i = sockets st i).
Proof.
  intros Hnd. destruct (broadcast_spec msg st Hnd) as (Hc & Hs & _).
  split_and!.
  - intros Hin Hopen. rewrite Hs. apply Set_has_In in Hin.
    rewrite Hin, Hopen. simpl. unfold ws_send.
    by destruct (sendThrows (sockets st i)).
  - intros Hin Hopen. split.
    + rewrite Hs, Hopen. by rewrite andb_false_r.
    + rewrite Hc. apply filter_In. split; [exact Hin|].
      unfold dropped. by rewrite Hopen.
  - intros Hout. rewrite Hs. apply Set_has_false in Hout. by rewrite Hout.
Qed.

Lemma X18_witness :
  let st := {| clients := [1; 2; 3; 4]%nat;
               sockets := fun i => {| readyState := if Nat.eqb i 3
                                                    then CLOSING else OPEN;
                                      sendThrows := Nat.eqb i 2;
                                      sendCalls := 0;
                                      received := [] |};
               clock := 0; timers := []; console := [] |} in
  sendCalls (sockets (broadcast (Hello "update") st) 1%nat) = 1%nat /\
  sockets (broadcast (Hello "update") st) 3%nat = sockets st 3%nat /\
  sockets (broadcast (Hello "update") st) 9%nat = sockets st 9%nat.
Proof.
  intros st.
  assert (Hnd : NoDup (clients st))
    by (apply (bool_decide_unpack _); vm_compute; exact I).
  destruct (X18_broadcast_sends_once_to_open_clients st (Hello "update") 1%nat
              Hnd) as (H1 & _ & _).
  destruct (X18_broadcast_sends_once_to_open_clients st (Hello "update") 3%nat
              Hnd) as (_ & H3 & _).
  destruct (X18_broadcast_sends_once_to_open_clients st (Hello "update") 9%nat
              Hnd) as (_ & _ & H9).
  split_and!.
  - apply H1; [simpl; tauto | reflexivity].
  - apply H3; [simpl; tauto | reflexivity].
  - apply H9. simpl. lia.
Defined.

(** X19.  A subscriber that is in the set, open, and whose [send] works
    receives the frames of successive broadcasts all, once each, in the
    order of the broadcasts, and is still such a subscriber afterwards. *)
Theorem X19_broadcasts_arrive_in_order (st : Server) (i : WsId)
    (msgs : list WireMessage) :
  NoDup (clients st) -> healthy st i ->
  received (sockets (broadcastAll msgs st) i) = received (sockets st i) ++ msgs /\
  healthy (broadcastAll msgs st) i.
Proof.
  intros Hnd Hh.
  destruct (broadcastAll_healthy msgs st i Hnd Hh) as (Hh' & _ & Hrec).
  by split.
Qed.

Lemma X19_witness :
  let st := {| clients := [1; 2]%nat;
               sockets := fun i => {| readyState := OPEN;
                                      sendThrows := Nat.eqb i 2;
                                      sendCalls := 0;
                                      received := [greeting] |};
               clock := 0; timers := []; console := [] |} in
  received (sockets (broadcastAll [Hello "a"; Hello "b"] st) 1%nat)
  = [greeting; Hello "a"; Hello "b"].
Proof.
  intros st.
  assert (Hnd : NoDup (clients st))
    by (apply (bool_decide_unpack _); vm_compute; exact I).
  assert (Hh : healthy st 1%nat).
  { split; [simpl; tauto | split; reflexivity]. }
  exact (proj1 (X19_broadcasts_arrive_in_order st 1%nat
                  [Hello "a"; Hello "b"] Hnd Hh)).
Defined.

(** X20.  The connection handler, for a new connection whose [send]
    works: the connection is appended to the set, the greeting is the
    frame it receives, the handler prints the new number of clients, the
    other connections are as they were, and an open connection then takes
    part in the broadcasts. *)
Theorem X20_connection_registers_and_greets (st : Server) (i : WsId) :
  NoDup (clients st) -> ~ In i (clients st) ->
  sendThrows (sockets st i) = false ->
  exists st',
    onConnection i st = (st', Ok (S (length (clients st)))) /\
    clients st' = clients st ++ [i] /\
    NoDup (clients st') /\
    received (sockets st' i) = received (sockets st i) ++ [greeting] /\
    (forall j, j <> i -> sockets st' j = sockets st j) /\
    (isOpen st i = true -> healthy st' i).
Proof.
  intros Hnd Hout Hok.
  pose proof Hout as E. apply Set_has_false in E.
  unfold onConnection, Set_add. rewrite E. simpl.
  unfold ws_send. rewrite Hok.
  eexists. split; [f_equal; f_equal; rewrite length_app; simpl; lia|].
  simpl. split_and!.
  - reflexivity.
  - apply NoDup_app. split_and!; [done | | apply NoDup_singleton].
    intros x Hx Hx'. apply list_elem_of_singleton in Hx'. subst.
    apply Hout. by apply list_elem_of_In.
  - by rewrite Nat.eqb_refl.
  - intros j Hne. apply Nat.eqb_neq in Hne. by rewrite Hne.
  - intros Hopen. split_and!.
    + simpl. apply in_or_app. right. by left.
    + unfold isOpen in *. simpl. by rewrite Nat.eqb_refl.
    + simpl. by rewrite Nat.eqb_refl.
Qed.

Lemma X20_witness :
  let st := {| clients := [1]%nat;
               sockets := fun _ => {| readyState := OPEN; sendThrows := false;
                                      sendCalls := 0; received := [] |};
               clock := 0; timers := []; console := [] |} in
  exists st',
    onConnection 2%nat st = (st', Ok 2%nat) /\
    clients st' = [1; 2]%nat /\
    received (sockets st' 2%nat) = [greeting].
Proof.
  intros st.
  assert (Hnd : NoDup (clients st))
    by (apply (bool_decide_unpack _); vm_compute; exact I).
  assert (Hout : ~ In 2%nat (clients st)) by (simpl; lia).
  destruct (X20_connection_registers_and_greets st 2%nat Hnd Hout eq_refl)
    as (st' & Hrun & Hc & _ & Hrec & _).
  exists st'. split_and!; assumption.
Defined.

(** X21.  The [close] and [error] handlers take the connection out of the
    set and nothing else; after one of them, no broadcast touches the
    connection; and for a connection that was new, connecting and closing
    gives the set back as it was. *)
Theorem X21_close_unregisters (st : Server) (i : WsId) :
  NoDup (clients st) ->
  onError i st = onClose i st /\
  clients (onClose i st) = List.filter (fun j => negb (Nat.eqb j i)) (clients st) /\
  ~ In i (clients (onClose i st)) /\
  sockets (onClose i st) = sockets st /\
  (forall msgs,
     sockets (broadcastAll msgs (onClose i st)) i = sockets st i /\
     ~ In i (clients (broadcastAll msgs (onClose i st)))) /\
  (~ In i (clients st) ->
     clients (onClose i (fst (onConnection i st))) = clients st).
Proof.
  intros Hnd.
  assert (Hout : ~ In i (clients (onClose i st))).
  { simpl. rewrite Set_delete_In. tauto. }
  split_and!; try reflexivity; try exact Hout.
  - intros msgs.
    apply (broadcastAll_absent msgs (onClose i st) i); [|exact Hout].
    simpl. by apply Set_delete_NoDup.
  - intros Hnew. unfold onConnection.
    destruct (ws_send greeting _) as [ws' [[] | e]]; simpl;
      by apply Set_delete_add.
Qed.

Lemma X21_witness :
  let st := {| clients := [1; 2; 3]%nat;
               sockets := fun _ => {| readyState := OPEN; sendThrows := false;
                                      sendCalls := 0; received := [] |};
               clock := 0; timers := []; console := [] |} in
  clients (onClose 2%nat st) = [1; 3]%nat /\
  received (sockets (broadcastAll [Hello "a"] (onClose 2%nat st)) 2%nat) = [] /\
  clients (onClose 5%nat (fst (onConnection 5%nat st))) = [1; 2; 3]%nat.
Proof.
  intros st.
  assert (Hnd : NoDup (clients st))
    by (apply (bool_decide_unpack _); vm_compute; exact I).
  destruct (X21_close_unregisters st 2%nat Hnd) as (_ & Hc & _ & _ & Hb & _).
  destruct (X21_close_unregisters st 5%nat Hnd) as (_ & _ & _ & _ & _ & Hrt).
  split_and!.
  - exact Hc.
  - destruct (Hb [Hello "a"]) as [-> _]. reflexivity.
  - apply Hrt. simpl. lia.
Defined.

(** X22.  When the greeting cannot be sent, the exception leaves the
    connection handler with the connection already in the set, no frame
    received; the next broadcast removes it if it is open and still
    raises. *)
Theorem X22_failed_greeting_leaves_client_registered (st : Server) (i : WsId)
    (msg : WireMessage) :
  NoDup (clients st) -> ~ In i (clients st) ->
  sendThrows (sockets st i) = true -> isOpen st i = true ->
  exists st',
    onConnection i st = (st', Throw TypeError) /\
    In i (clients st') /\
    received (sockets st' i) = received (sockets st i) /\
    ~ In i (clients (broadcast msg st')) /\
    received (sockets (broadcast msg st') i) = received (sockets st i).
Proof.
  intros Hnd Hout Hbad Hopen.
  pose proof Hout as E. apply Set_has_false in E.
  unfold onConnection, Set_add. rewrite E. simpl.
  unfold ws_send at 1. rewrite Hbad.
  eexists. split; [reflexivity|].
  set (st' := set_socket i _ _).
  assert (Hnd' : NoDup (clients st')).
  { simpl. apply NoDup_app. split_and!; [done | | apply NoDup_singleton].
    intros x Hx Hx'. apply list_elem_of_singleton in Hx'. subst.
    apply Hout. by apply list_elem_of_In. }
  assert (Hin : In i (clients st')).
  { simpl. apply in_or_app. right. by left. }
  assert (Hopen' : isOpen st' i = true).
  { unfold isOpen in *. simpl. by rewrite Nat.eqb_refl. }
  assert (Hbad' : sendThrows (sockets st' i) = true).
  { simpl. by rewrite Nat.eqb_refl. }
  destruct (broadcast_spec msg st' Hnd') as (Hc & Hs & _).
  split_and!.
  - exact Hin.
  - simpl. by rewrite Nat.eqb_refl.
  - rewrite Hc. intros Hf. apply filter_In in Hf as [_ Hf].
    unfold dropped in Hf. by rewrite Hopen', Hbad' in Hf.
  - rewrite Hs. apply Set_has_In in Hin. rewrite Hin, Hopen'. cbn [andb].
    unfold ws_send. rewrite Hbad'. cbn [fst received].
    unfold st'. simpl. by rewrite Nat.eqb_refl.
Qed.

Lemma X22_witness :
  let st := {| clients := [1]%nat;
               sockets := fun i => {| readyState := OPEN;
                                      sendThrows := Nat.eqb i 2;
                                      sendCalls := 0; received := [] |};
               clock := 0; timers := []; console := [] |} in
  exists st',
    onConnection 2%nat st = (st', Throw TypeError) /\
    In 2%nat (clients st') /\
    ~ In 2%nat (clients (broadcast (Hello "update") st')).
Proof.
  intros st.
  assert (Hnd : NoDup (clients st))
    by (apply (bool_decide_unpack _); vm_compute; exact I).
  assert (Hout : ~ In 2%nat (clients st)) by (simpl; lia).
  destruct (X22_failed_greeting_leaves_client_registered st 2%nat
              (Hello "update") Hnd Hout eq_refl eq_refl)
    as (st' & Hrun & Hin & _ & Hgone & _).
  exists st'. split_and!; assumption.
Defined.

(** ** [safeStream]: failures, frames and cycles *)

Section SafeStreamMore.

Implicit Types (st : Server) (i : WsId) (pages : list Page).

Lemma broadcast_clock json st : clock (broadcast json st) = clock st.
Proof. unfold broadcast. apply broadcastLoop_frame. Qed.

(** A healthy subscriber receives exactly the update frames of the run,
    and the run returns. *)
Lemma forAwait_onSnapshot_frames i pages :
  forall running idx (r : Run Server),
    NoDup (clients (world r)) -> healthy (world r) i ->
    exists r',
      forAwait (ofList pages) 3 onSnapshot running idx r
      = (r', Ok (fold_left mergePage pages running)) /\
      NoDup (clients (world r')) /\ healthy (world r') i /\
      received (sockets (world r') i)
      = received (sockets (world r) i)
        ++ framesFrom (clock (world r)) running idx pages.
Proof.
  induction pages as [|page rest IH]; intros running idx r Hnd Hh.
  - exists r. simpl. split_and!; auto. by rewrite app_nil_r.
  - cbn [forAwait ofList]. rewrite topNFromMap_nonneg by lia.
    set (snapshot := firstn _ _).
    unfold onSnapshot at 1. cbn [world trace].
    set (update := TopCategories _ idx _).
    set (st := console_log _ (world r)).
    assert (Hnd' : NoDup (clients st)) by exact Hnd.
    assert (Hh' : healthy st i) by exact Hh.
    destruct (broadcast_healthy update st i Hnd' Hh') as [Hh2 Hrec].
    pose proof (broadcast_NoDup update st Hnd') as Hnd2.
    destruct (IH (mergeCategoryTotals running (processPageToSales page))
                (idx + 1)
                {| world := broadcast update st;
                   trace := (trace r ++ [EvPage page])
                            ++ [EvUpdate snapshot idx] |} Hnd2 Hh2)
      as (r' & Hrun & Hnd3 & Hh3 & Hfr).
    exists r'. split_and!; auto.
    rewrite Hfr. cbn [world]. rewrite Hrec, broadcast_clock, <- app_assoc.
    reflexivity.
Qed.

Lemma map_lookup {A B} (f : A -> B) (l : list A) (j : nat) :
  map f l !! j = f <$> (l !! j).
Proof.
  revert j. induction l as [|x l IH]; intros [|j]; simpl; auto.
Qed.

Lemma snapshotOf_wf (m : JsMap) (n : Z) : Map_wf m -> Map_wf (snapshotOf m n).
Proof.
  intros Hwf. unfold snapshotOf.
  assert (Hwf' : Map_wf (toSorted byTotalDesc m)).
  { unfold Map_wf, keys in *. apply NoDup_ListNoDup.
    eapply Permutation_NoDup; [|apply NoDup_ListNoDup; exact Hwf].
    symmetry. apply Permutation_map, toSorted_Permutation. }
  unfold Map_wf, keys in *.
  rewrite <- (firstn_skipn (Z.to_nat n) (toSorted byTotalDesc m)) in Hwf'.
  rewrite map_app in Hwf'. by apply NoDup_app in Hwf' as (? & _ & _).
Qed.

Lemma itemsOf_wellFormed (now idx : Z) (m : JsMap) :
  Map_wf m ->
  wellFormedUpdate (TopCategories now idx (itemsOf (snapshotOf m 3))).
Proof.
  intros Hwf. simpl. split_and!.
  - unfold itemsOf, snapshotOf. rewrite length_map, length_firstn. lia.
  - pose proof (snapshotOf_wf m 3 Hwf) as Hs. unfold Map_wf, keys in Hs.
    unfold itemsOf. rewrite map_map.
    erewrite map_ext; [exact Hs|]. by intros [c t].
  - intros j x y Hx Hy. unfold itemsOf in Hx, Hy.
    rewrite map_lookup in Hx, Hy.
    apply fmap_Some in Hx as ([c1 t1] & E1 & ->).
    apply fmap_Some in Hy as ([c2 t2] & E2 & ->). simpl.
    apply (Sorted_descending _ (Sorted_firstn _ _ (toSorted_Sorted m))
             j (c1, t1) (c2, t2) E1 E2).
Qed.

Lemma fold_mergePage_wf (pages : list Page) (m : JsMap) :
  Map_wf m -> Map_wf (fold_left mergePage pages m).
Proof.
  revert m. induction pages as [|p l IH]; intros m Hm; simpl; auto.
  apply IH. by apply mergeCategoryTotals_wf.
Qed.

Lemma framesFrom_wellFormed (now : Z) pages :
  forall running idx,
    Map_wf running ->
    Forall wellFormedUpdate (framesFrom now running idx pages) /\
    length (framesFrom now running idx pages) = length pages /\
    pageIndices (framesFrom now running idx pages)
    = map (fun k => idx + Z.of_nat k) (seq 0 (length pages)).
Proof.
  induction pages as [|page rest IH]; intros running idx Hwf.
  - simpl. split_and!; auto.
  - assert (Hwf' : Map_wf (mergePage running page))
      by by apply mergeCategoryTotals_wf.
    destruct (IH (mergePage running page) (idx + 1) Hwf') as (Hall & Hlen & Hidx).
    cbn [framesFrom]. split_and!.
    + constructor; [by apply itemsOf_wellFormed | exact Hall].
    + simpl. by rewrite Hlen.
    + change (pageIndices (?x :: ?l)) with (pageIndices [x] ++ pageIndices l).
      rewrite Hidx. simpl. f_equal; [lia|].
      rewrite <- seq_shift, map_map. apply map_ext. intros; lia.
Qed.

End SafeStreamMore.



(** X24.  Every update frame a healthy subscriber receives from a run of
    [safeStream] that goes through has at most three items, of distinct
    categories, in descending order of [sum]; there is one frame per
    page, numbered from 0. *)
Theorem X24_safeStream_frames_well_formed (st : Server) (i : WsId)
    (pages : list Page) :
  NoDup (clients st) -> healthy st i ->
  exists frames,
    received (sockets (safeStreamFrom (ofList pages) st) i)
    = received (sockets st i) ++ frames /\
    length frames = length pages /\
    pageIndices frames = map Z.of_nat (seq 0 (length pages)) /\
    Forall wellFormedUpdate frames.
Proof.
  intros Hnd Hh.
  destruct (forAwait_onSnapshot_frames i pages [] 0
              {| world := console_log LogStarting st; trace := [] |} Hnd Hh)
    as (r' & Hrun & Hnd' & Hh' & Hfr).
  destruct (framesFrom_wellFormed (clock st) pages [] 0 Map_wf_nil)
    as (Hall & Hlen & Hidx).
  exists (framesFrom (clock st) [] 0 pages).
  unfold safeStreamFrom, streamTopCategories. rewrite Hrun.
  split_and!; [exact Hfr | exact Hlen | exact Hidx | exact Hall].
Qed.

Lemma X24_witness :
  let st := {| clients := [7]%nat;
               sockets := fun _ => {| readyState := OPEN; sendThrows := false;
                                      sendCalls := 0; received := [] |};
               clock := 0; timers := []; console := [] |} in
  exists frames,
    received (sockets (safeStream st) 7%nat) = frames /\
    length frames = 3%nat /\
    Forall wellFormedUpdate frames.
Proof.
  intros st.
  assert (Hnd : NoDup (clients st))
    by (apply (bool_decide_unpack _); vm_compute; exact I).
  assert (Hh : healthy st 7%nat).
  { split; [simpl; tauto | split; reflexivity]. }
  destruct (X24_safeStream_frames_well_formed st 7%nat
              (yielded fetchOrderPages) Hnd Hh)
    as (frames & Hrec & Hlen & _ & Hall).
  exists frames. split_and!; [exact Hrec | exact Hlen | exact Hall].
Defined.

(** X25.  The server goes on for ever, one timer at a time: after any
    number of timers fired, exactly one timer is pending, set for 5000 ms
    after the end of the run that set it, and a subscriber that stays
    healthy has received the indices 0, 1, 2 once per cycle.  How long a
    run takes is not stated. *)
Theorem X25_one_pending_timer_at_every_cycle (n : nat) :
  forall (st : Server) (i : WsId),
    NoDup (clients st) -> healthy st i -> timers st = [] ->
    exists stn,
      fireTimers n (safeStream st) = Some stn /\
      timers stn = [(clock stn + 5000, RestartCycle)] /\
      healthy stn i /\
      pageIndices (received (sockets stn i))
      = pageIndices (received (sockets st i))
        ++ concat (repeat [0; 1; 2] (S n)).
Proof.
  induction n as [|n IH]; intros st i Hnd Hh Hnone.
  - unfold safeStream. rewrite fetchOrderPages_finite.
    destruct (safeStreamFrom_healthy i (yielded fetchOrderPages) st Hnd Hh)
      as (Hnd1 & Hh1 & Hidx1 & Hk1 & Ht1 & _).
    eexists. split; [reflexivity|].
    rewrite Hnone in Ht1. split_and!.
    + rewrite Ht1, Hk1. reflexivity.
    + exact Hh1.
    + rewrite Hidx1. reflexivity.
  - pose proof (safeStreamFrom_healthy i (yielded fetchOrderPages) st Hnd Hh)
      as (Hnd1 & Hh1 & Hidx1 & Hk1 & Ht1 & _).
    rewrite <- fetchOrderPages_finite in Hnd1, Hh1, Hidx1, Hk1, Ht1.
    fold (safeStream st) in Hnd1, Hh1, Hidx1, Hk1, Ht1.
    rewrite Hnone, app_nil_l in Ht1.
    set (st1 := safeStream st) in *.
    set (st1' := console_log LogRestarting
                   {| clients := clients st1; sockets := sockets st1;
                      clock := clock st + 5000; timers := [];
                      console := console st1 |}).
    destruct (IH st1' i Hnd1 Hh1 eq_refl)
      as (stn & Hfire & Ht & Hhn & Hidx).
    exists stn. split_and!.
    + cbn [fireTimers]. unfold fireTimer. rewrite Ht1. exact Hfire.
    + exact Ht.
    + exact Hhn.
    + rewrite Hidx. change (sockets st1' i) with (sockets st1 i).
      rewrite Hidx1, <- app_assoc. reflexivity.
Qed.

Lemma X25_witness :
  let st := {| clients := [7]%nat;
               sockets := fun _ => {| readyState := OPEN; sendThrows := false;
                                      sendCalls := 0; received := [] |};
               clock := 0; timers := []; console := [] |} in
  exists st2,
    fireTimers 2 (safeStream st) = Some st2 /\
    timers st2 = [(clock st2 + 5000, RestartCycle)] /\
    pageIndices (received (sockets st2 7%nat)) = [0; 1; 2; 0; 1; 2; 0; 1; 2].
Proof.
  intros st.
  assert (Hnd : NoDup (clients st))
    by (apply (bool_decide_unpack _); vm_compute; exact I).
  assert (Hh : healthy st 7%nat).
  { split; [simpl; tauto | split; reflexivity]. }
  destruct (X25_one_pending_timer_at_every_cycle 2 st 7%nat Hnd Hh eq_refl)
    as (st2 & Hfire & Ht & _ & Hidx).
  exists st2. split_and!; [exact Hfire | exact Ht | exact Hidx].
Defined.

(** ** The scripts of Steps 1 to 3 *)

Section Scripts.

Implicit Types (pages : list Page).

Lemma flat_map_singleton {A B} (f : A -> B) (l : list A) :
  flat_map (fun x => [f x]) l = map f l.
Proof. induction l as [|x l IH]; simpl; by rewrite ?IH. Qed.

Lemma asCategorySale_itemSalesOf (orders : list Order) :
  map asCategorySale (itemSalesOf orders) = salesOf orders.
Proof.
  unfold itemSalesOf, salesOf, structuredClone. rewrite map_id.
  induction (List.filter _ orders) as [|o l IH]; simpl; [done|].
  rewrite map_app, IH, flat_map_singleton, map_map. reflexivity.
Qed.

(** The sales [createItemSales] yields for one page. *)
Lemma createItemSales_page (page : Page) :
  flat_map
    (fun order =>
       if Status_eqb (status order) paid then
         let clonedOrder := structuredClone order in
         map (itemSale clonedOrder) (items clonedOrder)
       else []) page
  = itemSalesOf page.
Proof.
  unfold itemSalesOf, structuredClone. rewrite map_id.
  induction page as [|o l IH]; simpl; [done|].
  destruct (Status_eqb (status o) paid); simpl;
    by rewrite IH, ?flat_map_singleton.
Qed.

Lemma itemSalesOf_app (l1 l2 : list Order) :
  itemSalesOf (l1 ++ l2) = itemSalesOf l1 ++ itemSalesOf l2.
Proof.
  unfold itemSalesOf. by rewrite List.filter_app, map_app, flat_map_app.
Qed.

Lemma aggregate_fold (sales : list ItemSale) (m : JsMap) :
  fold_left
    (fun acc sale =>
       Map_set acc (item_sale_category sale)
         ((Map_get acc (item_sale_category sale) ?? 0) + item_sale_total sale))
    sales m
  = aggregate (map asCategorySale sales) m.
Proof.
  revert m. induction sales as [|x l IH]; intros m; simpl; [done|].
  by rewrite IH.
Qed.

Lemma progressCounts_S (count : Z) (n : nat) :
  progressCounts count (S n)
  = (if (count + 1) mod 2 =? 0 then [count + 1] else [])
    ++ progressCounts (count + 1) n.
Proof.
  unfold progressCounts. cbn [seq map List.filter].
  replace (count + Z.of_nat 1) with (count + 1) by lia.
  rewrite <- seq_shift, map_map.
  assert (Hext : map (fun j => count + Z.of_nat (S j)) (seq 1 n)
                 = map (fun j => count + 1 + Z.of_nat j) (seq 1 n)).
  { apply map_ext. intros; lia. }
  rewrite Hext. by destruct ((count + 1) mod 2 =? 0).
Qed.

Lemma progressCounts_app (count : Z) (n1 n2 : nat) :
  progressCounts count (n1 + n2)
  = progressCounts count n1 ++ progressCounts (count + Z.of_nat n1) n2.
Proof.
  revert count. induction n1 as [|n1 IH]; intros count.
  - simpl. by rewrite Z.add_0_r.
  - change (S n1 + n2)%nat with (S (n1 + n2)).
    rewrite !progressCounts_S, IH, <- app_assoc. do 3 f_equal. lia.
Qed.

(** The loop of Step 3 over the sales a source yields. *)
Lemma streamingFold_followedBy (sales : list ItemSale)
    (rest : AsyncIterable ItemSale) :
  forall s : Fold,
    streamingFold (followedBy sales rest) s
    = streamingFold rest
        {| itemCount := itemCount s + Z.of_nat (length sales);
           foldTotals := aggregate (map asCategorySale sales) (foldTotals s);
           progress := progress s
                       ++ progressCounts (itemCount s) (length sales) |}.
Proof.
  induction sales as [|x l IH]; intros s.
  - simpl. destruct s as [c t p]. simpl.
    unfold progressCounts. simpl. by rewrite Z.add_0_r, app_nil_r.
  - cbn [followedBy streamingFold]. rewrite IH.
    cbn [itemCount foldTotals progress length map].
    rewrite progressCounts_S.
    replace (itemCount s + 1 + Z.of_nat (length l))
      with (itemCount s + Z.of_nat (S (length l))) by lia.
    destruct ((itemCount s + 1) mod 2 =? 0); rewrite <- ?app_assoc;
      reflexivity.
Qed.

Lemma streamingFold_createItemSales (src : AsyncIterable Page) :
  forall s : Fold,
    streamingFold (createItemSales src) s
    = ({| itemCount :=
            itemCount s
            + Z.of_nat (length (itemSalesOf (concat (yielded src))));
          foldTotals :=
            aggregate (salesOf (concat (yielded src))) (foldTotals s);
          progress :=
            progress s
            ++ progressCounts (itemCount s)
                 (length (itemSalesOf (concat (yielded src)))) |},
       outcome src).
Proof.
  induction src as [| e | page rest IH]; intros s.
  - simpl. destruct s as [c t p]. unfold progressCounts. simpl.
    by rewrite Z.add_0_r, app_nil_r.
  - simpl. destruct s as [c t p]. unfold progressCounts. simpl.
    by rewrite Z.add_0_r, app_nil_r.
  - cbn [createItemSales yielded concat outcome].
    rewrite createItemSales_page, streamingFold_followedBy, IH.
    cbn [itemCount foldTotals progress].
    rewrite itemSalesOf_app, salesOf_app, aggregate_app, length_app.
    rewrite asCategorySale_itemSalesOf.
    f_equal. f_equal; try lia; try reflexivity.
    by rewrite progressCounts_app, app_assoc.
Qed.

Lemma length_itemSalesOf (orders : list Order) :
  length (itemSalesOf orders) = length (paidItems orders).
Proof.
  rewrite <- (length_map asCategorySale), asCategorySale_itemSalesOf.
  by rewrite salesOf_paidItems, length_map.
Qed.

(** Grouping and then summing each group is the fold of the sales. *)
Lemma group_add_sums (g : list (string * list ItemSale)) (k : string)
    (x : ItemSale) :
  map (fun '(category, arr) =>
         (category, fold_left (fun a s => a + item_sale_total s) arr 0))
      (group_add g k x)
  = addTotal
      (map (fun '(category, arr) =>
              (category, fold_left (fun a s => a + item_sale_total s) arr 0))
           g)
      k (item_sale_total x).
Proof.
  induction g as [|[k' xs] g IH]; [reflexivity|].
  cbn [map group_add]. rewrite addTotal_cons.
  destruct (String.eqb k' k); cbn [map].
  - by rewrite fold_left_app.
  - by rewrite IH.
Qed.

Lemma groupBy_sums (sales : list ItemSale) :
  map (fun '(category, arr) =>
         (category, fold_left (fun a s => a + item_sale_total s) arr 0))
      (Map_groupBy sales item_sale_category)
  = aggregate (map asCategorySale sales) [].
Proof.
  unfold Map_groupBy.
  change (@nil Entry) with
    (map (fun '(category, arr) =>
            (category, fold_left (fun a s => a + item_sale_total s) arr 0))
         (@nil (string * list ItemSale))).
  generalize (@nil (string * list ItemSale)).
  induction sales as [|x l IH]; intros g; [reflexivity|].
  cbn [fold_left map]. rewrite IH, group_add_sums. reflexivity.
Qed.

Lemma top3ByGroups_itemSalesOf (orders : list Order) :
  top3ByGroups (itemSalesOf orders) = topNFromMap (processPageToSales orders) 3.
Proof.
  unfold top3ByGroups, topNFromMap.
  by rewrite groupBy_sums, asCategorySale_itemSalesOf.
Qed.

Lemma Array_fromAsync_outcome {A} (src : AsyncIterable A) :
  Array_fromAsync src
  = match outcome src with
    | Ok _ => Ok (yielded src)
    | Throw e => Throw e
    end.
Proof.
  unfold Array_fromAsync.
  enough (H : forall acc,
            (fix collect (it : AsyncIterable A) (acc : list A) :=
               match it with
               | Done => Ok acc
               | Fails e => Throw e
               | Yields x rest => collect rest (acc ++ [x])
               end) src acc
            = match outcome src with
              | Ok _ => Ok (acc ++ yielded src)
              | Throw e => Throw e
              end) by apply (H []).
  induction src as [| e | x rest IH]; intros acc; simpl.
  - by rewrite app_nil_r.
  - reflexivity.
  - rewrite IH. destruct (outcome rest); [|reflexivity].
    by rewrite <- app_assoc.
Qed.

Lemma flat_map_id {A} (ls : list (list A)) : flat_map (fun l => l) ls = concat ls.
Proof. induction ls as [|l ls IH]; simpl; by rewrite ?IH. Qed.

Lemma step3_result (src : AsyncIterable Page) :
  snd (step3 src)
  = match outcome src with
    | Ok _ => topNFromMap (processPageToSales (concat (yielded src))) 3
    | Throw e => Throw e
    end.
Proof.
  unfold step3. rewrite streamingFold_createItemSales.
  cbn [foldTotals]. rewrite <- processPageToSales_aggregate.
  by destruct (outcome src) as [[]|e].
Qed.

End Scripts.

(** X26.  Step 3, on any finite page source: its loop counts the line
    items of the paid orders, its totals are what [processPageToSales]
    gives on all the orders received, its progress line is rewritten at
    the even counts; it ends with the top 3 of these totals when the
    source ends, and with the error of the source when it raises. *)
Theorem X26_step3_streaming_fold (src : AsyncIterable Page) :
  fst (step3 src)
  = {| itemCount := Z.of_nat (length (paidItems (concat (yielded src))));
       foldTotals := processPageToSales (concat (yielded src));
       progress :=
         progressCounts 0 (length (paidItems (concat (yielded src)))) |} /\
  snd (step3 src)
  = match outcome src with
    | Ok _ => topNFromMap (processPageToSales (concat (yielded src))) 3
    | Throw e => Throw e
    end.
Proof.
  unfold step3. rewrite streamingFold_createItemSales.
  rewrite length_itemSalesOf. cbn [itemCount foldTotals progress].
  rewrite <- processPageToSales_aggregate.
  destruct (outcome src) as [[]|e]; split; reflexivity.
Qed.

(** X27.  Grouping the sales by category and summing each group, as
    Steps 1 and 2 do, ranks like the fold of Step 4: Step 1 returns the
    top 3 of what [processPageToSales] gives on the orders. *)
Theorem X27_step1_groups_rank_like_the_fold (orders : list Order) :
  step1 orders = topNFromMap (processPageToSales orders) 3.
Proof. apply top3ByGroups_itemSalesOf. Qed.

(** X28.  Steps 2 and 3 end alike on every finite page source: with the
    same top 3 when the source ends, which is also what Step 1 gives on
    the orders of all the pages, and with the error of the source when it
    raises. *)
Theorem X28_steps_agree (src : AsyncIterable Page) :
  step2 src = snd (step3 src) /\
  (outcome src = Ok tt -> step2 src = step1 (concat (yielded src))).
Proof.
  assert (H2 : step2 src
               = match outcome src with
                 | Ok _ => step1 (concat (yielded src))
                 | Throw e => Throw e
                 end).
  { unfold step2. rewrite Array_fromAsync_outcome.
    destruct (outcome src); [|reflexivity]. by rewrite flat_map_id. }
  split.
  - rewrite H2, step3_result.
    destruct (outcome src); [|reflexivity].
    apply top3ByGroups_itemSalesOf.
  - intros Hok. by rewrite H2, Hok.
Qed.

Lemma X28_witness :
  step2 fetchOrderPages = step1 (concat (yielded fetchOrderPages)) /\
  step2 fetchOrderPages
  = Ok [("tools", 29999); ("books", 10300); ("food", 3100)].
Proof.
  split; [|reflexivity].
  apply (X28_steps_agree fetchOrderPages). reflexivity.
Defined.

(** X29.  On pages whose amounts are integers in the range where the
    program's arithmetic is exact, the map [streamTopCategories] returns
    ranks like the scripts: its top 3 is what Step 1 gives on the orders
    of all the pages. *)
Theorem X29_stream_totals_rank_like_step1 {W : Type} (onUpdate : Callback W)
    (pages : list Page) (limit : Z) (w : W) (r : Run W) (totals : JsMap) :
  exactAmounts (concat pages) ->
  streamTopCategories (ofList pages) limit onUpdate w = (r, Ok totals) ->
  topNFromMap totals 3 = step1 (concat pages).
Proof.
  unfold streamTopCategories. intros _ Hrun.
  apply forAwait_Ok in Hrun as (-> & _ & _).
  rewrite fold_mergePage, <- processPageToSales_aggregate.
  symmetry. apply top3ByGroups_itemSalesOf.
Qed.

Lemma X29_witness :
  topNFromMap (runningAfter (yielded fetchOrderPages) 3) 3
  = step1 (concat (yielded fetchOrderPages)).
Proof.
  pose (run := streamTopCategories fetchOrderPages 3 recordCalls []).
  assert (Hrun : streamTopCategories (ofList (yielded fetchOrderPages)) 3
                   recordCalls []
                 = (fst run, Ok (runningAfter (yielded fetchOrderPages) 3)))
    by reflexivity.
  assert (Hexact : exactAmounts (concat (yielded fetchOrderPages)))
    by solve_exact.
  exact (X29_stream_totals_rank_like_step1 recordCalls
           (yielded fetchOrderPages) 3 [] (fst run) _ Hexact Hrun).
Defined.

(** ** Sums on the wire within one run *)

Section WireMonotone.

Implicit Types (m : JsMap) (pages : list Page).

Lemma In_snapshotOf m (n : Z) (e : Entry) : In e (snapshotOf m n) -> In e m.
Proof.
  intros Hin. eapply Permutation_in; [apply toSorted_Permutation|].
  unfold snapshotOf in Hin.
  rewrite <- (firstn_skipn (Z.to_nat n)). apply in_or_app. by left.
Qed.

Lemma In_itemsOf m (n : Z) (x : Item) :
  Map_wf m -> In x (itemsOf (snapshotOf m n)) ->
  Map_get m (item_category x) = Some (sum x).
Proof.
  intros Hwf Hin. unfold itemsOf in Hin.
  apply in_map_iff in Hin as ([c t] & <- & Hin). simpl.
  apply In_Map_get; [exact Hwf|]. by apply In_snapshotOf in Hin.
Qed.

Lemma mergePage_totalsLe m (page : Page) :
  (forall o it, In o page -> In it (items o) -> 0 <= qty it /\ 0 <= unitPrice it) ->
  totalsLe m (mergePage m page).
Proof.
  intros Hnn. by apply mergeCategoryTotals_totalsLe, processPageToSales_nonneg.
Qed.

Lemma framesFrom_monotone (now : Z) pages :
  forall running idx (j : nat) a1 i1 its1 a2 i2 its2,
    nonNegative pages -> Map_wf running ->
    framesFrom now running idx pages !! j = Some (TopCategories a1 i1 its1) ->
    framesFrom now running idx pages !! S j = Some (TopCategories a2 i2 its2) ->
    forall x y,
      In x its1 -> In y its2 -> item_category x = item_category y ->
      sum x <= sum y.
Proof.
  induction pages as [|p1 rest IH];
    intros running idx j a1 i1 its1 a2 i2 its2 Hnn Hwf H1 H2 x y Hx Hy Hc;
    [discriminate|].
  assert (Hnn' : nonNegative rest).
  { intros page o it Hp. apply (Hnn page o it). by right. }
  assert (Hwf1 : Map_wf (mergePage running p1))
    by by apply mergeCategoryTotals_wf.
  destruct j as [|j].
  - destruct rest as [|p2 rest']; [discriminate|].
    cbn [framesFrom] in H1, H2. simpl in H1, H2.
    injection H1 as <- <- <-. injection H2 as <- <- <-.
    assert (Hwf2 : Map_wf (mergePage (mergePage running p1) p2))
      by by apply mergeCategoryTotals_wf.
    apply In_itemsOf in Hx; [|done]. apply In_itemsOf in Hy; [|done].
    assert (Hle : totalsLe (mergePage running p1)
                           (mergePage (mergePage running p1) p2)).
    { apply mergePage_totalsLe. intros o it. apply (Hnn p2 o it).
      right. by left. }
    destruct (Hle (item_category x)) as [_ Hup].
    destruct (Hup _ Hx) as (v' & Hv' & Hvle).
    rewrite Hc in Hv'. rewrite Hv' in Hy. injection Hy as <-. exact Hvle.
  - cbn [framesFrom] in H1, H2.
    apply (IH (mergePage running p1) (idx + 1) j a1 i1 its1 a2 i2 its2
              Hnn' Hwf1 H1 H2 x y Hx Hy Hc).
Qed.

End WireMonotone.

(** X30.  Within one run of [safeStream] over pages without negative
    quantities or prices, the sums a healthy subscriber receives never go
    down: a category listed in two successive update frames has, in the
    later one, a sum at least as large. *)
Theorem X30_sums_never_decrease_within_a_run (st : Server) (i : WsId)
    (pages : list Page) :
  NoDup (clients st) -> healthy st i -> nonNegative pages ->
  exists frames,
    received (sockets (safeStreamFrom (ofList pages) st) i)
    = received (sockets st i) ++ frames /\
    forall (j : nat) a1 i1 its1 a2 i2 its2,
      frames !! j = Some (TopCategories a1 i1 its1) ->
      frames !! S j = Some (TopCategories a2 i2 its2) ->
      forall x y,
        In x its1 -> In y its2 -> item_category x = item_category y ->
        sum x <= sum y.
Proof.
  intros Hnd Hh Hnn.
  destruct (forAwait_onSnapshot_frames i pages [] 0
              {| world := console_log LogStarting st; trace := [] |} Hnd Hh)
    as (r' & Hrun & Hnd' & Hh' & Hfr).
  exists (framesFrom (clock st) [] 0 pages). split.
  - unfold safeStreamFrom, streamTopCategories. rewrite Hrun. exact Hfr.
  - intros j a1 i1 its1 a2 i2 its2.
    by apply framesFrom_monotone; [|apply Map_wf_nil].
Qed.

Lemma X30_witness :
  let st := {| clients := [7]%nat;
               sockets := fun _ => {| readyState := OPEN; sendThrows := false;
                                      sendCalls := 0; received := [] |};
               clock := 0; timers := []; console := [] |} in
  exists frames,
    received (sockets (safeStream st) 7%nat) = frames /\
    forall (j : nat) a1 i1 its1 a2 i2 its2,
      frames !! j = Some (TopCategories a1 i1 its1) ->
      frames !! S j = Some (TopCategories a2 i2 its2) ->
      forall x y,
        In x its1 -> In y its2 -> item_category x = item_category y ->
        sum x <= sum y.
Proof.
  intros st.
  assert (Hnd : NoDup (clients st))
    by (apply (bool_decide_unpack _); vm_compute; exact I).
  assert (Hh : healthy st 7%nat).
  { split; [simpl; tauto | split; reflexivity]. }
  assert (Hnn : nonNegative (yielded fetchOrderPages)).
  { intros page o it Hp Ho Hit. simpl in Hp.
    repeat (destruct Hp as [<- | Hp]; [simpl in Ho;
      repeat (destruct Ho as [<- | Ho]; [simpl in Hit;
        repeat (destruct Hit as [<- | Hit]; [simpl; lia|]); destruct Hit|]);
      destruct Ho|]).
    destruct Hp. }
  destruct (X30_sums_never_decrease_within_a_run st 7%nat
              (yielded fetchOrderPages) Hnd Hh Hnn) as (frames & Hrec & Hmono).
  exists frames. split; [exact Hrec | exact Hmono].
Defined.
